(** * style-bot: subscription ledger reconciliation and access gatekeeping

    A shallow embedding of [bot/main.py]: the subscription policy, the date
    parser, the ledger upsert, the join-request gatekeeper, the expired-member
    removal pass, the audit write-back, the duplicate purge and the broadcast
    loop, with the properties the specification states about them.

    Conventions of the embedding.
    - A Python [str] is a [string] holding its UTF-8 bytes.  Character classes
      ([\d], whitespace) are the ASCII ones, plus the no-break space U+00A0
      that the source names; other non-ASCII digits and blanks are outside
      the model.
    - A Python [int] is a [Z]; a [date] is a record of three [Z].
    - An exception is [None] in an [option] result.
    - A cell holds the text that was written to it; the sheet's own
      reformatting of entered values is outside the model.
    - Binary floating point cells of the sheet and the digit-count limit of
      [int] on very long numerals are outside the model. *)

From stdpp Require Import base decidable option numbers list strings
  pretty sorting gmap.

From Stdlib Require Import Ascii.

Set Warnings "-clear-no-such-hyp,-notation-for-abbreviation".

Local Open Scope Z_scope.

(** ** Calendar dates ([datetime.date]) *)

Record date := mkdate { year : Z; month : Z; day : Z }.

#[global] Instance date_eq_dec : EqDecision date.
Proof. solve_decision. Defined.

Definition MINYEAR : Z := 1.
Definition MAXYEAR : Z := 9999.

Definition _is_leap (y : Z) : bool :=
  (y mod 4 =? 0) && (negb (y mod 100 =? 0) || (y mod 400 =? 0)).

(** [_DAYS_IN_MONTH] and [_DAYS_BEFORE_MONTH], indexed by month 1..12. *)
Definition _DAYS_IN_MONTH (m : Z) : Z :=
  match m with
  | 1 => 31 | 2 => 28 | 3 => 31 | 4 => 30 | 5 => 31 | 6 => 30
  | 7 => 31 | 8 => 31 | 9 => 30 | 10 => 31 | 11 => 30 | 12 => 31
  | _ => 0
  end.

Definition _DAYS_BEFORE_MONTH (m : Z) : Z :=
  match m with
  | 1 => 0 | 2 => 31 | 3 => 59 | 4 => 90 | 5 => 120 | 6 => 151
  | 7 => 181 | 8 => 212 | 9 => 243 | 10 => 273 | 11 => 304 | 12 => 334
  | _ => 0
  end.

Definition _days_in_month (y m : Z) : Z :=
  if (m =? 2) && _is_leap y then 29 else _DAYS_IN_MONTH m.

(** The field check of the [date] constructor. *)
Definition valid_date_fields (y m d : Z) : bool :=
  (MINYEAR <=? y) && (y <=? MAXYEAR) && (1 <=? m) && (m <=? 12)
  && (1 <=? d) && (d <=? _days_in_month y m).

(** [date(y, m, d)]: [None] stands for the [ValueError] of a field out of
    range. *)
Definition date_new (y m d : Z) : option date :=
  if valid_date_fields y m d then Some (mkdate y m d) else None.

Definition valid_date (d : date) : Prop :=
  valid_date_fields (year d) (month d) (day d) = true.

(** [date.min] *)
Definition date_min : date := mkdate 1 1 1.

(** Dates compare as the tuples (year, month, day). *)
Definition date_lt (a b : date) : Prop :=
  year a < year b \/
  (year a = year b /\
   (month a < month b \/ (month a = month b /\ day a < day b))).

Definition date_le (a b : date) : Prop := date_lt a b \/ a = b.

Definition date_ltb (a b : date) : bool :=
  (year a <? year b)
  || ((year a =? year b)
      && ((month a <? month b)
          || ((month a =? month b) && (day a <? day b)))).

Definition date_leb (a b : date) : bool := negb (date_ltb b a).

(** [d.replace(day=n)] *)
Definition date_replace_day (d : date) (n : Z) : option date :=
  date_new (year d) (month d) n.

(** Proleptic Gregorian ordinals, as [datetime] computes them. *)
Definition _days_before_year (y : Z) : Z :=
  let y' := y - 1 in y' * 365 + y' / 4 - y' / 100 + y' / 400.

Definition _days_before_month (y m : Z) : Z :=
  _DAYS_BEFORE_MONTH m + (if (2 <? m) && _is_leap y then 1 else 0).

Definition _ymd2ord (y m d : Z) : Z :=
  _days_before_year y + _days_before_month y m + d.

Definition toordinal (d : date) : Z := _ymd2ord (year d) (month d) (day d).

Definition _DI400Y : Z := 146097.
Definition _DI100Y : Z := 36524.
Definition _DI4Y : Z := 1461.
Definition _MAXORDINAL : Z := 3652059.

Definition _ord2ymd (n0 : Z) : date :=
  let n := n0 - 1 in
  let n400 := n / _DI400Y in
  let n := n mod _DI400Y in
  let y := n400 * 400 + 1 in
  let n100 := n / _DI100Y in
  let n := n mod _DI100Y in
  let n4 := n / _DI4Y in
  let n := n mod _DI4Y in
  let n1 := n / 365 in
  let n := n mod 365 in
  let y := y + n100 * 100 + n4 * 4 + n1 in
  if (n1 =? 4) || (n100 =? 4) then mkdate (y - 1) 12 31
  else
    let leapyear := (n1 =? 3) && (negb (n4 =? 24) || (n100 =? 3)) in
    let m := Z.shiftr (n + 50) 5 in
    let preceding :=
      _DAYS_BEFORE_MONTH m + (if (2 <? m) && leapyear then 1 else 0) in
    let '(m, preceding) :=
      if n <? preceding
      then (m - 1,
            preceding
            - (_DAYS_IN_MONTH (m - 1)
               + (if (m - 1 =? 2) && leapyear then 1 else 0)))
      else (m, preceding) in
    mkdate y m (n - preceding + 1).

(** [d + timedelta(days=k)]: [None] is the [OverflowError] of a result
    outside [date.min .. date.max]. *)
Definition date_add_days (d : date) (k : Z) : option date :=
  let o := toordinal d + k in
  if (0 <? o) && (o <=? _MAXORDINAL) then Some (_ord2ymd o) else None.

(** ** Subscription policy *)

(** [subscription_config["end_day"]], clamped as [_calc_end_date] does. *)
Definition clamp_end_day (end_day : Z) : Z :=
  let end_day := if end_day <? 1 then 1 else end_day in
  if 28 <? end_day then 28 else end_day.

Definition _calc_end_date (end_day : Z) (today : date) : option date :=
  let end_day := clamp_end_day end_day in
  let '(target_year, target_month) :=
    if month today =? 12 then (year today + 1, 1)
    else (year today, month today + 1) in
  date_new target_year target_month end_day.

(** ** Text: [str.strip], [int(str)] and [datetime.strptime] *)

Definition is_space (c : ascii) : bool :=
  let n := Z.of_nat (nat_of_ascii c) in
  ((9 <=? n) && (n <=? 13)) || ((28 <=? n) && (n <=? 32)).

Definition digit_of (c : ascii) : option Z :=
  let n := Z.of_nat (nat_of_ascii c) in
  if (48 <=? n) && (n <=? 57) then Some (n - 48) else None.

(** The two UTF-8 bytes of U+00A0. *)
Definition nbsp_hi : ascii := ascii_of_nat 194.
Definition nbsp_lo : ascii := ascii_of_nat 160.

Fixpoint lstrip (s : string) : string :=
  match s with
  | String c s' =>
      if is_space c then lstrip s'
      else match s' with
           | String c2 s'' =>
               if bool_decide (c = nbsp_hi) && bool_decide (c2 = nbsp_lo)
               then lstrip s'' else s
           | EmptyString => s
           end
  | EmptyString => s
  end.

(** Leading blanks of the reversed text: the no-break space reads
    low byte first. *)
Fixpoint lstrip_rev (s : string) : string :=
  match s with
  | String c s' =>
      if is_space c then lstrip_rev s'
      else match s' with
           | String c2 s'' =>
               if bool_decide (c = nbsp_lo) && bool_decide (c2 = nbsp_hi)
               then lstrip_rev s'' else s
           | EmptyString => s
           end
  | EmptyString => s
  end.

Definition rstrip (s : string) : string :=
  String.rev (lstrip_rev (String.rev s)).

(** [s.strip()] *)
Definition strip (s : string) : string := rstrip (lstrip s).

(** [s.replace(" ", " ")] *)
Fixpoint replace_nbsp (s : string) : string :=
  match s with
  | String c s' =>
      match s' with
      | String c2 s'' =>
          if bool_decide (c = nbsp_hi) && bool_decide (c2 = nbsp_lo)
          then String " " (replace_nbsp s'')
          else String c (replace_nbsp s')
      | EmptyString => s
      end
  | EmptyString => s
  end.

(** Digits of a decimal literal after the sign; an underscore may stand
    between two digits. *)
Fixpoint int_digits (acc : Z) (after_underscore : bool) (s : string)
  : option Z :=
  match s with
  | EmptyString => if after_underscore then None else Some acc
  | String c s' =>
      match digit_of c with
      | Some d => int_digits (10 * acc + d) false s'
      | None =>
          if bool_decide (c = "_"%char) && negb after_underscore
          then int_digits acc true s' else None
      end
  end.

(** [int(s)] for a [str]: [None] is the [ValueError]. *)
Definition py_int (s : string) : option Z :=
  let s := strip s in
  let '(negative, body) :=
    match s with
    | String "-"%char r => (true, r)
    | String "+"%char r => (false, r)
    | _ => (false, s)
    end in
  match body with
  | String c _ =>
      match digit_of c with
      | Some _ =>
          (fun n => if negative : bool then - n else n)
            <$> int_digits 0 false body
      | None => None
      end
  | EmptyString => None
  end.

(** Regular-expression pieces of [_strptime]: each matcher lists its
    matches (value, rest of the text) in the order the backtracking
    engine tries them. *)
Definition matcher := string -> list (Z * string).

Definition one_digit (lo hi : Z) : matcher := fun s =>
  match s with
  | String c r =>
      match digit_of c with
      | Some d => if (lo <=? d) && (d <=? hi) then [(d, r)] else []
      | None => []
      end
  | EmptyString => []
  end.

Definition lit (c : ascii) : matcher := fun s =>
  match s with
  | String c' r => if bool_decide (c' = c) then [(0, r)] else []
  | EmptyString => []
  end.

(** Two pieces in sequence; the value is [10 * a + b]. *)
Definition two (p q : matcher) : matcher := fun s =>
  '(a, r) ← p s; '(b, r') ← q r; [(10 * a + b, r')].

(** [%Y]: [\d\d\d\d] *)
Definition re_Y : matcher :=
  two (two (two (one_digit 0 9) (one_digit 0 9)) (one_digit 0 9))
      (one_digit 0 9).

(** [%m]: [1[0-2]|0[1-9]|[1-9]] *)
Definition re_m : matcher := fun s =>
  (two (one_digit 1 1) (one_digit 0 2) s
   ++ two (one_digit 0 0) (one_digit 1 9) s
   ++ one_digit 1 9 s)%list.

(** [%d]: [3[0-1]|[1-2]\d|0[1-9]|[1-9]| [1-9]] *)
Definition re_d : matcher := fun s =>
  (two (one_digit 3 3) (one_digit 0 1) s
   ++ two (one_digit 1 2) (one_digit 0 9) s
   ++ two (one_digit 0 0) (one_digit 1 9) s
   ++ one_digit 1 9 s
   ++ two (lit " ") (one_digit 1 9) s)%list.

(** The first match of the whole pattern must consume the whole text
    ("unconverted data remains" otherwise); the fields then go through the
    [date] constructor. *)
Definition strptime_finish (ms : list (Z * Z * Z * string)) : option date :=
  match ms with
  | (y, m, d, r) :: _ => if bool_decide (r = "") then date_new y m d else None
  | [] => None
  end.

(** [datetime.strptime(s, "%Y-%m-%d").date()] *)
Definition strptime_ymd (s : string) : option date :=
  strptime_finish
    ('(y, r) ← re_Y s; '(_, r) ← lit "-" r; '(m, r) ← re_m r;
     '(_, r) ← lit "-" r; '(d, r) ← re_d r; [(y, m, d, r)]).

(** [datetime.strptime(s, "%d.%m.%Y").date()] and, with [sep = "/"],
    [datetime.strptime(s, "%d/%m/%Y").date()] *)
Definition strptime_dmy (sep : ascii) (s : string) : option date :=
  strptime_finish
    ('(d, r) ← re_d s; '(_, r) ← lit sep r; '(m, r) ← re_m r;
     '(_, r) ← lit sep r; '(y, r) ← re_Y r; [(y, m, d, r)]).

(** ** Sheet cells and the date parser *)

(** What a cell holds once read: text, or an [int] where
    [get_all_records] has converted a numeric text; [CNone] is Python's
    [None]. *)
Inductive cell := CNone | CStr (s : string) | CInt (n : Z).

#[global] Instance cell_eq_dec : EqDecision cell.
Proof. solve_decision. Defined.

(** [str(v)] *)
Definition py_str (v : cell) : string :=
  match v with
  | CNone => "None"
  | CStr s => s
  | CInt n => pretty n
  end.

Definition excel_epoch : date := mkdate 1899 12 30.

Definition _parse_sheet_date (val : cell) : option date :=
  match val with
  | CNone => None
  | CStr s0 =>
      if bool_decide (strip s0 = "") then None
      else
        let s := replace_nbsp (strip s0) in
        match strptime_ymd s with
        | Some d => Some d
        | None =>
            match strptime_dmy "." s with
            | Some d => Some d
            | None => strptime_dmy "/" s
            end
        end
  | CInt n => date_add_days excel_epoch n
  end.

#[global] Arguments _parse_sheet_date : simpl never.
#[global] Arguments py_int : simpl never.
#[global] Arguments strip : simpl never.

(** ** The sheet: a grid of text cells, row 1 holding the headers *)

Notation row := (list string) (only parsing).
Notation sheet := (list (list string)) (only parsing).

(** A cell position: 1-based row and column, as [gspread.Cell]. *)
Definition cell_ref : Type := nat * nat.

(** The API returns a row without its trailing empty cells. *)
Fixpoint drop_trailing_blanks (r : row) : row :=
  match r with
  | [] => []
  | c :: r' =>
      match drop_trailing_blanks r' with
      | [] => if bool_decide (c = "") then [] else [c]
      | t => c :: t
      end
  end.

(** [sheet.row_values(r)] *)
Definition row_values (s : sheet) (r : nat) : row :=
  drop_trailing_blanks (default [] (s !! (r - 1)%nat)).

Fixpoint find_in_row (q : string) (rn cn : nat) (r : row) : list cell_ref :=
  match r with
  | [] => []
  | c :: r' =>
      (if bool_decide (c = q) then [(rn, cn)] else [])
      ++ find_in_row q rn (S cn) r'
  end.

Fixpoint findall_from (rn : nat) (s : sheet) (q : string) : list cell_ref :=
  match s with
  | [] => []
  | r :: s' => find_in_row q rn 1 r ++ findall_from (S rn) s' q
  end.

(** [sheet.findall(q)]: every cell of the sheet whose text is exactly [q],
    in row-major order, whatever its column. *)
Definition findall (s : sheet) (q : string) : list cell_ref :=
  findall_from 1 s q.

(** [sheet.update("A<r>:<last><r>", [vals])] with [last = len(vals)]: the
    first [len(vals)] cells of row [r] are replaced, cells further right
    stay; a row below the grid is created. *)
Definition overwrite_prefix (vals old : row) : row :=
  vals ++ drop (length vals) old.

Definition update_row (s : sheet) (r : nat) (vals : row) : sheet :=
  if decide (r - 1 < length s)%nat
  then alter (overwrite_prefix vals) (r - 1)%nat s
  else s ++ replicate (r - 1 - length s)%nat [] ++ [vals].

(** [sheet.append_row(vals)]: a new row after the last one. *)
Definition append_row (s : sheet) (vals : row) : sheet := s ++ [vals].

(** [sheet.get_all_values()] *)
Definition get_all_values (s : sheet) : list row := s.

Definition WANTED_HEADERS_RU : list string :=
  ["user_id"; "username"; "дата_оплаты"; "дата_окончания";
   "notified"; "статус"; "full_name"; "phone_number"; "in_channel"].

Definition HEADER_ALIASES : list (string * list string) :=
  [("user_id", ["user_id"; "id"; "userid"]);
   ("username", ["username"; "user"; "name"]);
   ("дата_оплаты", ["дата_оплаты"; "paid_at"; "дата оплаты"]);
   ("дата_окончания",
    ["дата_окончания"; "paid_until"; "end_date"; "дата окончания"]);
   ("notified", ["notified"]);
   ("статус", ["статус"; "status"]);
   ("full_name", ["full_name"; "fullname"; "fio"]);
   ("phone_number", ["phone_number"; "phone"; "телефон"]);
   ("in_channel", ["in_channel"])].

(** [HEADER_ALIASES.get(name, [name])] *)
Definition aliases_of (name : string) : list string :=
  match list_find (fun kv => kv.1 = name) HEADER_ALIASES with
  | Some (_, (_, al)) => al
  | None => [name]
  end.

(** [headers.index(a)], 0-based *)
Definition index_of (a : string) (headers : row) : option nat :=
  fst <$> list_find (fun h => h = a) headers.

(** The loop of [_find_col] (and of [col] in the audit): the position of
    the first alias that occurs among the headers. *)
Fixpoint first_alias_index (aliases : list string) (headers : row)
  : option nat :=
  match aliases with
  | [] => None
  | a :: rest =>
      match index_of a headers with
      | Some i => Some i
      | None => first_alias_index rest headers
      end
  end.

(** One turn of the loop that completes the headers; the state is
    [(headers, changed)]. *)
Definition ensure_step (acc : row * bool) (h : string) : row * bool :=
  if bool_decide (h ∈ acc.1) then acc else (acc.1 ++ [h], true).

Definition _ensure_headers_ru (s : sheet) : sheet :=
  let headers := row_values s 1 in
  match headers with
  | [] => update_row s 1 WANTED_HEADERS_RU
  | _ =>
      let '(headers, changed) :=
        foldl ensure_step (headers, false) WANTED_HEADERS_RU in
      if changed : bool then update_row s 1 headers else s
  end.

(** [_find_col] on a sheet that answers. *)
Definition find_col (s : sheet) (header_name : string) : option nat :=
  first_alias_index (aliases_of header_name) (row_values s 1).

Definition _write_row_by_headers (s : sheet) (row_dict : gmap string string)
  : row :=
  (fun h => default "" (row_dict !! h)) <$> row_values s 1.

(** ** Approval: the ledger write of [_approve_user] *)

(** An entry of [users_waiting]. *)
Record user_info := mk_user_info {
  ui_username : string; ui_full_name : string; ui_language : string }.

Definition zero_pad (width : nat) (s : string) : string :=
  String.string_of_list_ascii (replicate (width - String.length s) "0"%char) +:+ s.

(** [d.isoformat()] *)
Definition isoformat (d : date) : string :=
  zero_pad 4 (pretty (year d)) +:+ "-" +:+ zero_pad 2 (pretty (month d))
  +:+ "-" +:+ zero_pad 2 (pretty (day d)).

Definition approve_row_dict (users_waiting : gmap Z user_info)
    (today end_date : date) (target_id : Z) : gmap string string :=
  let raw_username :=
    match users_waiting !! target_id with
    | Some ui => ui_username ui
    | None => ""
    end in
  let username :=
    if bool_decide (raw_username = "") then "id" +:+ pretty target_id
    else "@" +:+ raw_username in
  let full_name :=
    match users_waiting !! target_id with
    | Some ui => ui_full_name ui
    | None => ""
    end in
  list_to_map
    [("user_id", pretty target_id);
     ("username", username);
     ("дата_оплаты", isoformat today);
     ("дата_окончания", isoformat end_date);
     ("notified", "no");
     ("статус", "active");
     ("full_name", full_name);
     ("phone_number", "")].

(** The row the first match sits in, [matches[0].row]. *)
Definition first_match_row (s : sheet) (q : string) : option nat :=
  fst <$> head (findall s q).

(** The write of the upsert: the row of the first match is overwritten,
    or a row is appended when nothing matches. *)
Definition upsert_row (s : sheet) (q : string) (values : row) : sheet :=
  match findall s q with
  | (r, _) :: _ => update_row s r values
  | [] => append_row s values
  end.

(** The ledger effect of [_approve_user] when the store answers every call.
    [None]: [_calc_end_date] raised, before anything was written. *)
Definition _approve_user (end_day : Z) (users_waiting : gmap Z user_info)
    (today : date) (target_id : Z) (s : sheet) : option sheet :=
  end_date ← _calc_end_date end_day today;
  let s := _ensure_headers_ru s in
  let row_dict := approve_row_dict users_waiting today end_date target_id in
  let values := _write_row_by_headers s row_dict in
  Some (upsert_row s (pretty target_id) values).

(** ** The join-request gatekeeper *)

(** The reads of the gatekeeper go to the live store and may raise:
    [None] is an exception of the call. *)
Record store := mk_store {
  st_findall : string -> option (list cell_ref);
  st_row_values : nat -> option row }.

(** A store that answers every read from the grid [s]. *)
Definition sheet_store (s : sheet) : store :=
  {| st_findall q := Some (findall s q);
     st_row_values r := Some (row_values s r) |}.

Definition _find_col (st : store) (header_name : string)
  : option (option nat) :=
  headers ← st_row_values st 1;
  Some (first_alias_index (aliases_of header_name) headers).

(** [today] is [datetime.utcnow().date()]. *)
Definition _row_is_paid (st : store) (today : date) (row_vals : row)
  : option bool :=
  idx ← _find_col st "дата_окончания";
  Some (match idx with
        | None => false
        | Some i =>
            match row_vals !! i with
            | None => false
            | Some v =>
                match _parse_sheet_date (CStr v) with
                | Some pu => date_leb today pu
                | None => false
                end
            end
        end).

#[global] Arguments _row_is_paid : simpl never.

Inductive decision := Approved | Declined.

#[global] Instance decision_eq_dec : EqDecision decision.
Proof. solve_decision. Defined.




(** ** Grouping rows by identity *)

Fixpoint enumerate {A} (start : nat) (l : list A) : list (nat * A) :=
  match l with
  | [] => []
  | x :: l' => (start, x) :: enumerate (S start) l'
  end.

(** The row loop of the passes, [for idx, r in enumerate(rows, start=2)]:
    a row that [f] reads contributes its identity with its row number and
    the data read; any other row is skipped ([continue]). *)
Definition scan_rows {R B} (f : R -> option (Z * B)) (rows : list R)
  : list (Z * (nat * B)) :=
  omap (fun ir => ub ← f ir.2; Some (ub.1, (ir.1, ub.2))) (enumerate 2 rows).

(** [groups.setdefault(k, []).append(x)] on a dict, which keeps its keys in
    insertion order. *)
Fixpoint group_add {A} (k : Z) (x : A) (g : list (Z * list A))
  : list (Z * list A) :=
  match g with
  | [] => [(k, [x])]
  | (k', xs) :: g' =>
      if bool_decide (k = k') then (k', xs ++ [x]) :: g'
      else (k', xs) :: group_add k x g'
  end.

Definition group_items {A} (items : list (Z * A)) : list (Z * list A) :=
  foldl (fun g kx => group_add kx.1 kx.2 g) [] items.

(** The rows of a snapshot (row numbers from 2) whose number is not in
    [marked]. *)
Definition unmarked_rows {R} (marked : list nat) (rows : list R) : list R :=
  (filter (fun ir => ir.1 ∉ marked) (enumerate 2 rows)).*2.

(** Sort keys [(date, row index)], compared as Python tuples. *)
Definition key_le (a b : date * nat) : Prop :=
  date_lt a.1 b.1 \/ (a.1 = b.1 /\ (a.2 <= b.2)%nat).

#[global] Instance date_lt_dec : RelDecision date_lt.
Proof. intros a b. unfold date_lt. apply _. Defined.

#[global] Instance key_le_dec : RelDecision key_le.
Proof. intros a b. unfold key_le. apply _. Defined.

(** [sorted(l, key=f)] and [sorted(l, key=f, reverse=True)] *)
Definition sorted_by {A} (f : A -> date * nat) (l : list A) : list A :=
  merge_sort (fun x y => key_le (f x) (f y)) l.

Definition sorted_by_desc {A} (f : A -> date * nat) (l : list A) : list A :=
  merge_sort (fun x y => key_le (f y) (f x)) l.

(** ** The removal pass ([/clean]) *)

(** The alias loop over a record of [get_all_records]: the value under the
    first alias whose text is not blank. *)
Fixpoint first_nonblank (keys : list string) (r : gmap string cell)
  : option cell :=
  match keys with
  | [] => None
  | k :: ks =>
      match r !! k with
      | Some v =>
          if bool_decide (strip (py_str v) = "") then first_nonblank ks r
          else Some v
      | None => first_nonblank ks r
      end
  end.

Definition record_uid (r : gmap string cell) : option Z :=
  match first_nonblank (aliases_of "user_id") r with
  | None => None
  | Some CNone => None
  | Some v => py_int (strip (py_str v))
  end.

Definition record_end (r : gmap string cell) : option date :=
  match first_nonblank (aliases_of "дата_окончания") r with
  | None => None
  | Some v => _parse_sheet_date v
  end.

(** A row enters [by_user] when both its identity and its end date are
    readable. *)
Definition clean_row (r : gmap string cell) : option (Z * date) :=
  uid ← record_uid r; end_dt ← record_end r; Some (uid, end_dt).

Definition clean_scan (records : list (gmap string cell))
  : list (Z * list (nat * date)) :=
  group_items (scan_rows clean_row records).

(** [max(dates)] of a non-empty sequence. *)
Definition max_date (d : date) (ds : list date) : date :=
  foldl (fun m x => if date_ltb m x then x else m) d ds.

(** The cutoff of the pass, [today.replace(day=19)]. *)
Definition month_start (today : date) : date :=
  mkdate (year today) (month today) 19.

(** One turn of the loop over [by_user]; the state is
    [(users_to_kick, rows_to_delete)]. *)
Definition clean_step (cutoff : date) (acc : list Z * list nat)
    (g : Z * list (nat * date)) : list Z * list nat :=
  let rows_sorted := sorted_by (fun x => (x.2, x.1)) g.2 in
  match rows_sorted.*2 with
  | [] => acc
  | d :: ds =>
      let max_end := max_date d ds in
      if date_ltb max_end cutoff
      then (acc.1 ++ [g.1], acc.2 ++ rows_sorted.*1)
      else (acc.1,
            acc.2 ++ (filter (fun x => date_ltb x.2 max_end = true)
                             rows_sorted).*1)
  end.

(** The decisions of [remove_expired_subscribers] on a snapshot:
    [(users_to_kick, rows_to_delete)]. *)
Definition remove_expired_subscribers (records : list (gmap string cell))
    (today : date) : list Z * list nat :=
  foldl (clean_step (month_start today)) ([], []) (clean_scan records).

(** [sorted(set(to_delete), reverse=True)] *)
Definition descending_rows (to_delete : list nat) : list nat :=
  merge_sort (flip Nat.le) (remove_dups to_delete).

(** The loop that folds the descending rows into runs of consecutive rows;
    a run is stored as [(endr, start)], its lowest and highest row. *)
Fixpoint delete_ranges_from (start endr : nat) (rest : list nat)
  : list (nat * nat) :=
  match rest with
  | [] => [(endr, start)]
  | r :: rest' =>
      if bool_decide (S r = endr) then delete_ranges_from start r rest'
      else (endr, start) :: delete_ranges_from r r rest'
  end.

Definition delete_ranges (rows_to_delete : list nat) : list (nat * nat) :=
  match descending_rows rows_to_delete with
  | [] => []
  | r :: rest => delete_ranges_from r r rest
  end.

(** The arguments of the calls [sheet.delete_rows(r_to, r_from)], one per
    run [(r_from, r_to)]. *)
Definition delete_calls (rows_to_delete : list nat) : list (nat * nat) :=
  (fun rng => (rng.2, rng.1)) <$> delete_ranges rows_to_delete.



(** ** Duplicate purge ([/purge_dups]) *)

(** [x[1] or date.min] *)
Definition pu_key (pu : option date) : date := default date_min pu.

(** The sort key of the purge, [(x[1] or date.min, x[0])]. *)
Definition purge_key (x : nat * option date) : date * nat := (pu_key x.2, x.1).

Definition purge_row (i_uid i_pu : nat) (r : row)
  : option (Z * option date) :=
  match r !! i_uid with
  | None => None
  | Some c =>
      if bool_decide (c = "") then None
      else
        uid ← py_int c;
        Some (uid,
              match r !! i_pu with
              | Some v => _parse_sheet_date (CStr v)
              | None => None
              end)
  end.

Definition purge_scan (i_uid i_pu : nat) (data : list row)
  : list (Z * list (nat * option date)) :=
  group_items (scan_rows (purge_row i_uid i_pu) data).

(** The rows of one identity that the purge deletes. *)
Definition purge_group (items : list (nat * option date)) : list nat :=
  if decide (length items <= 1)%nat then []
  else (tail (sorted_by_desc purge_key items)).*1.

Definition purge_to_delete (i_uid i_pu : nat) (data : list row) : list nat :=
  purge_scan i_uid i_pu data ≫= (fun g => purge_group g.2).

(** The row kept for an identity: the head of its sorted group. *)
Definition purge_authoritative (i_uid i_pu : nat) (data : list row)
  : list (Z * nat) :=
  omap (fun g =>
          (fun x => (g.1, x.1))
            <$> head (sorted_by_desc purge_key g.2))
       (purge_scan i_uid i_pu data).

(** [sheet.delete_rows(r)], one call per row, highest row first, on the
    data rows (row [r] of the sheet is entry [r - 2] of the data). *)
Definition delete_data_rows (data : list row) (to_delete : list nat)
  : list row :=
  foldl (fun d r => delete (r - 2)%nat d) data (descending_rows to_delete).

(** ** Audit ([/audit]): the write-back of [in_channel] *)

(** The identity of a data row as the audit and the broadcast read it:
    the stripped cell, when it is not blank and [int] accepts it. *)
Definition row_uid (i_uid : nat) (r : row) : option Z :=
  let raw := strip (default "" (r !! i_uid)) in
  if bool_decide (raw = "") then None else py_int raw.

#[global] Arguments row_uid : simpl never.

(** An entry of [by_uid] is [(row_num, (paid_until, username, full_name))]. *)
Definition audit_row (i_uid : nat) (i_un i_fn i_pu : option nat) (r : row)
  : option (Z * (option date * string * string)) :=
  uid ← row_uid i_uid r;
  let pu := i ← i_pu; v ← r !! i; _parse_sheet_date (CStr v) in
  let un := default "" (i ← i_un; r !! i) in
  let fn := default "" (i ← i_fn; r !! i) in
  Some (uid, (pu, un, fn)).

(** [member.status in ("member", "administrator", "creator")]; the lookup
    answers [None] when it raises [TelegramError]. *)
Definition in_chat (get_chat_member : Z -> option string) (uid : Z) : bool :=
  match get_chat_member uid with
  | Some status =>
      bool_decide (status ∈ ["member"; "administrator"; "creator"])
  | None => false
  end.

Definition audit_present (get_chat_member : Z -> option string)
    {A} (by_uid : list (Z * A)) : gset Z :=
  foldl (fun present g =>
           if in_chat get_chat_member g.1 then {[ g.1 ]} ∪ present
           else present) ∅ by_uid.

Definition audit_status_map {B} (unique_present : gset Z)
    (by_uid : list (Z * list (nat * B))) : gmap nat string :=
  foldl (fun m g =>
           let status_value :=
             if bool_decide (g.1 ∈ unique_present) then "yes" else "no" in
           foldl (fun m it => <[ it.1 := status_value ]> m) m g.2)
        ∅ by_uid.

(** Writes to the sheet. *)
Inductive store_op :=
  | OpUpdateCell (r c : nat) (v : string)
  | OpUpdateRange (col r_from r_to : nat) (values : list string).

Definition is_range_update (op : store_op) : bool :=
  match op with OpUpdateRange _ _ _ _ => true | OpUpdateCell _ _ _ => false end.

(** The writes of [audit_subscribers]; none when the table is empty or has
    no identity column. *)
Definition audit_subscribers (s : sheet)
    (get_chat_member : Z -> option string) : list store_op :=
  match get_all_values s with
  | [] => []
  | headers :: data =>
      let col := fun name => first_alias_index (aliases_of name) headers in
      match col "user_id" with
      | None => []
      | Some i_uid =>
          let by_uid :=
            group_items
              (scan_rows (audit_row i_uid (col "username") (col "full_name")
                            (col "дата_окончания"))
                         data) in
          let unique_present := audit_present get_chat_member by_uid in
          let headers1 := row_values s 1 in
          let '(col_idx, create) :=
            match index_of "in_channel" headers1 with
            | Some i => (S i, [])
            | None =>
                (S (length headers1),
                 [OpUpdateCell 1 (S (length headers1)) "in_channel"])
            end in
          let status_map := audit_status_map unique_present by_uid in
          let total_rows := length data in
          let values :=
            (fun row_num => default "" (status_map !! row_num))
              <$> seq 2 total_rows in
          create ++ [OpUpdateRange col_idx 2 (1 + total_rows) values]
      end
  end.

(** ** Broadcast ([/broadcast]) *)

Fixpoint broadcast_targets_from (i_uid : nat) (seen : gset Z)
    (data : list row) : list Z :=
  match data with
  | [] => []
  | r :: data' =>
      match row_uid i_uid r with
      | None => broadcast_targets_from i_uid seen data'
      | Some uid =>
          if bool_decide (uid ∈ seen)
          then broadcast_targets_from i_uid seen data'
          else uid :: broadcast_targets_from i_uid ({[ uid ]} ∪ seen) data'
      end
  end.

Definition broadcast_targets (i_uid : nat) (data : list row) : list Z :=
  broadcast_targets_from i_uid ∅ data.

(** What [send_message] does for one recipient. *)
Inductive send_result := Delivered | RaisedForbidden | RaisedTelegramError.

#[global] Instance send_result_eq_dec : EqDecision send_result.
Proof. solve_decision. Defined.

Inductive event :=
  | EvSend (uid : Z)
  | EvLogWarning (uid : Z)
  | EvSleep.

Record tally := mk_tally { sent : nat; failed : nat; trace : list event }.

(** The send loop; [idx] is the 1-based position given by [enumerate]. *)
Fixpoint broadcast_loop (send_message : Z -> send_result) (idx : nat)
    (targets : list Z) (t : tally) : tally :=
  match targets with
  | [] => t
  | uid :: rest =>
      let t :=
        match send_message uid with
        | Delivered =>
            mk_tally (S (sent t)) (failed t) (trace t ++ [EvSend uid])
        | RaisedForbidden =>
            mk_tally (sent t) (S (failed t)) (trace t ++ [EvSend uid])
        | RaisedTelegramError =>
            mk_tally (sent t) (S (failed t))
                     (trace t ++ [EvSend uid; EvLogWarning uid])
        end in
      let t :=
        if bool_decide (idx mod 12 = 0)%nat
        then mk_tally (sent t) (failed t) (trace t ++ [EvSleep]) else t in
      broadcast_loop send_message (S idx) rest t
  end.

Definition broadcast (send_message : Z -> send_result) (i_uid : nat)
    (data : list row) : tally :=
  broadcast_loop send_message 1 (broadcast_targets i_uid data)
                 (mk_tally 0 0 []).

(** ** Notions used to state the properties *)

(** The values filed under key [k], in the order they were added. *)
Definition items_of {A} (k : Z) (items : list (Z * A)) : list A :=
  (filter (fun kx => kx.1 = k) items).*2.

(** [groups.get(k)] *)
Fixpoint group_lookup {A} (k : Z) (g : list (Z * list A))
  : option (list A) :=
  match g with
  | [] => None
  | (k', xs) :: g' =>
      if bool_decide (k = k') then Some xs else group_lookup k g'
  end.

(** [m] is the latest end date among the rows of one identity. *)
Definition is_max_end (m : date) (rows_u : list (nat * date)) : Prop :=
  m ∈ rows_u.*2 /\ forall e, e ∈ rows_u.*2 -> date_le e m.

(** The events of the [k]-th recipient of a broadcast. *)
Definition recipient_block (send_message : Z -> send_result) (k : nat)
    (uid : Z) : list event :=
  [EvSend uid]
  ++ (match send_message uid with
      | RaisedTelegramError => [EvLogWarning uid]
      | _ => []
      end)
  ++ (if bool_decide (k mod 12 = 0)%nat then [EvSleep] else []).

Definition is_failure (r : send_result) : bool :=
  match r with Delivered => false | _ => true end.

Definition send_of (e : event) : option Z :=
  match e with EvSend u => Some u | _ => None end.

Definition log_of (e : event) : option Z :=
  match e with EvLogWarning u => Some u | _ => None end.

Definition is_sleep (e : event) : bool :=
  match e with EvSleep => true | _ => false end.

(** The content of the row the purge keeps for an identity. *)
Definition authoritative_row (i_uid i_pu : nat) (data : list row) (uid : Z)
  : option row :=
  items ← group_lookup uid (purge_scan i_uid i_pu data);
  a ← head (sorted_by_desc purge_key items);
  data !! (a.1 - 2)%nat.



(** The rows of the sheet (1-based numbers, in order) that hold a cell
    with the text [q]: the rows the exact-text search finds. *)
Definition rows_matching (s : sheet) (q : string) : list nat :=
  (filter (fun ir => q ∈ ir.2) (enumerate 1 s)).*1.

(** The text of the cell in row [r] (1-based), column [i] (0-based). *)
Definition cell_at (s : sheet) (r i : nat) : option string :=
  row_vals ← s !! (r - 1)%nat; row_vals !! i.

(** A record of [get_all_records] with an identity and a period end, for
    the worked examples. *)
Definition ledger_record (uid : Z) (period_end : string) : gmap string cell :=
  list_to_map [("user_id", CInt uid); ("дата_окончания", CStr period_end)].


(** * Properties *)

(** ** Worked values of the text and date readers *)

Example parse_iso :
  _parse_sheet_date (CStr "2025-03-10") = Some (mkdate 2025 3 10).
Proof. by vm_compute. Qed.

Example parse_dotted :
  _parse_sheet_date (CStr " 10.03.2025 ") = Some (mkdate 2025 3 10).
Proof. by vm_compute. Qed.

Example parse_slashed :
  _parse_sheet_date (CStr "1/3/2025") = Some (mkdate 2025 3 1).
Proof. by vm_compute. Qed.

Example parse_short_fields :
  _parse_sheet_date (CStr "2025-3-1") = Some (mkdate 2025 3 1).
Proof. by vm_compute. Qed.

Example parse_no_such_day : _parse_sheet_date (CStr "2025-02-30") = None.
Proof. by vm_compute. Qed.

Example parse_no_such_month : _parse_sheet_date (CStr "2025-13-01") = None.
Proof. by vm_compute. Qed.

Example parse_trailing_text : _parse_sheet_date (CStr "2025-03-10x") = None.
Proof. by vm_compute. Qed.

Example parse_only_blanks : _parse_sheet_date (CStr "  ") = None.
Proof. by vm_compute. Qed.

Example parse_serial :
  _parse_sheet_date (CInt 45000) = Some (mkdate 2023 3 15).
Proof. by vm_compute. Qed.

Example int_padded : py_int " 42 " = Some 42.
Proof. by vm_compute. Qed.

Example int_signed : py_int "-7" = Some (-7).
Proof. by vm_compute. Qed.

Example int_grouped : py_int "1_000" = Some 1000.
Proof. by vm_compute. Qed.

Example int_rejects :
  py_int "" = None /\ py_int "_1" = None /\ py_int "1__0" = None /\
  py_int "4.0" = None /\ py_int "- 5" = None /\ py_int "id5" = None.
Proof. by vm_compute. Qed.

Example isoformat_pads : isoformat (mkdate 987 6 5) = "0987-06-05".
Proof. by vm_compute. Qed.

(** ** Dates *)

Lemma date_ltb_spec (a b : date) : date_ltb a b = true <-> date_lt a b.
Proof.
  unfold date_ltb, date_lt.
  rewrite orb_true_iff, !andb_true_iff, orb_true_iff, andb_true_iff.
  rewrite !Z.ltb_lt, !Z.eqb_eq. tauto.
Qed.

Lemma date_ext (a b : date) :
  year a = year b -> month a = month b -> day a = day b -> a = b.
Proof. destruct a, b; simpl; congruence. Qed.

Lemma date_lt_irrefl (a : date) : ~ date_lt a a.
Proof. unfold date_lt. lia. Qed.

Lemma date_lt_trans (a b c : date) : date_lt a b -> date_lt b c -> date_lt a c.
Proof. unfold date_lt. lia. Qed.

Lemma date_lt_trichotomy (a b : date) : date_lt a b \/ a = b \/ date_lt b a.
Proof.
  destruct (Z.lt_trichotomy (year a) (year b)) as [?|[Hy|?]];
    [left; unfold date_lt; lia| |right; right; unfold date_lt; lia].
  destruct (Z.lt_trichotomy (month a) (month b)) as [?|[Hm|?]];
    [left; unfold date_lt; lia| |right; right; unfold date_lt; lia].
  destruct (Z.lt_trichotomy (day a) (day b)) as [?|[Hd|?]];
    [left; unfold date_lt; lia| |right; right; unfold date_lt; lia].
  right; left. by apply date_ext.
Qed.

Lemma date_leb_spec (a b : date) : date_leb a b = true <-> date_le a b.
Proof.
  unfold date_leb, date_le. rewrite negb_true_iff, <- not_true_iff_false.
  rewrite date_ltb_spec. split.
  - intros Hn. destruct (date_lt_trichotomy a b) as [?|[?|?]]; tauto.
  - intros [Hlt| ->] Hba.
    + eapply date_lt_irrefl, date_lt_trans; eauto.
    + by eapply date_lt_irrefl.
Qed.

Lemma date_le_refl (a : date) : date_le a a.
Proof. by right. Qed.

Lemma date_le_trans (a b c : date) : date_le a b -> date_le b c -> date_le a c.
Proof.
  intros [?| ->] [?| ->]; unfold date_le; eauto using date_lt_trans.
Qed.

Lemma date_le_lt_trans (a b c : date) :
  date_le a b -> date_lt b c -> date_lt a c.
Proof. intros [?| ->] ?; eauto using date_lt_trans. Qed.

Lemma date_lt_le_trans (a b c : date) :
  date_lt a b -> date_le b c -> date_lt a c.
Proof. intros ? [?| <-]; eauto using date_lt_trans. Qed.

Lemma date_le_total (a b : date) : date_le a b \/ date_le b a.
Proof.
  unfold date_le. destruct (date_lt_trichotomy a b) as [?|[?|?]]; auto.
Qed.

Lemma date_lt_not_le (a b : date) : date_lt a b <-> ~ date_le b a.
Proof.
  split.
  - intros Hab [Hba| ->].
    + eapply date_lt_irrefl, date_lt_trans; eauto.
    + by eapply date_lt_irrefl.
  - intros Hn. unfold date_le in Hn.
    destruct (date_lt_trichotomy a b) as [?|[->|?]]; tauto.
Qed.

Lemma date_new_Some (y m d : Z) (x : date) :
  date_new y m d = Some x -> x = mkdate y m d /\ valid_date x.
Proof.
  unfold date_new, valid_date.
  destruct (valid_date_fields y m d) eqn:E; [|done].
  intros [= <-]. done.
Qed.

Lemma replace_day_19 (today : date) :
  valid_date today -> date_replace_day today 19 = Some (month_start today).
Proof.
  unfold valid_date, date_replace_day, date_new, month_start, valid_date_fields.
  rewrite !andb_true_iff, !Z.leb_le. intros [[[[[? ?] ?] ?] ?] ?].
  assert (19 <= _days_in_month (year today) (month today)) as H19.
  { unfold _days_in_month.
    destruct ((month today =? 2) && _is_leap (year today)); [lia|].
    assert (month today ∈ [1;2;3;4;5;6;7;8;9;10;11;12]) as Hm.
    { rewrite !elem_of_cons. lia. }
    rewrite !elem_of_cons, elem_of_nil in Hm.
    destruct Hm as [->|[->|[->|[->|[->|[->|[->|[->|[->|[->|[->|[->|[]]]]]]]]]]]]];
      simpl; lia. }
  assert (((MINYEAR <=? year today) && (year today <=? MAXYEAR)
           && (1 <=? month today) && (month today <=? 12) && (1 <=? 19)
           && (19 <=? _days_in_month (year today) (month today))) = true)
    as ->; [|done].
  rewrite !andb_true_iff, !Z.leb_le. lia.
Qed.

(** ** Subscription policy *)

Lemma clamp_end_day_spec (end_day : Z) :
  clamp_end_day end_day = Z.max 1 (Z.min 28 end_day).
Proof.
  unfold clamp_end_day.
  destruct (Z.ltb_spec end_day 1);
    [destruct (Z.ltb_spec 28 1)|destruct (Z.ltb_spec 28 end_day)]; lia.
Qed.

Lemma days_in_month_ge_28 (y m : Z) :
  1 <= m <= 12 -> 28 <= _days_in_month y m.
Proof.
  intros Hm. unfold _days_in_month.
  destruct ((m =? 2) && _is_leap y); [lia|].
  assert (m ∈ [1;2;3;4;5;6;7;8;9;10;11;12]) as Hin.
  { rewrite !elem_of_cons. lia. }
  rewrite !elem_of_cons, elem_of_nil in Hin.
  destruct Hin as [->|[->|[->|[->|[->|[->|[->|[->|[->|[->|[->|[->|[]]]]]]]]]]]]];
    simpl; lia.
Qed.

(** C2, as stated, fails at the last December of the calendar: the next
    month lies in year 10000, which the [date] constructor refuses. *)
Lemma calc_end_date_raises_in_december_9999 :
  valid_date (mkdate 9999 12 5) /\
  _calc_end_date 20 (mkdate 9999 12 5) = None.
Proof. split; reflexivity. Qed.

(** C2 (amended): for every valid date [today] that is not in December of
    year 9999 and every configured end day, [_calc_end_date] returns a date
    in the calendar month after [today]'s (January of the next year after a
    December), on the end day clamped into 1..28; in particular
    2025-01-15 with end day 20 gives 2025-02-20 and 2025-12-05 with end day
    31 gives 2026-01-28. *)
Theorem calc_end_date_next_month (end_day : Z) (today : date) :
  valid_date today ->
  year today < MAXYEAR \/ month today <> 12 ->
  (exists d,
      _calc_end_date end_day today = Some d /\
      valid_date d /\
      day d = Z.max 1 (Z.min 28 end_day) /\
      1 <= day d <= 28 /\
      (month today = 12 -> year d = year today + 1 /\ month d = 1) /\
      (month today <> 12 ->
       year d = year today /\ month d = month today + 1)) /\
  _calc_end_date 20 (mkdate 2025 1 15) = Some (mkdate 2025 2 20) /\
  _calc_end_date 31 (mkdate 2025 12 5) = Some (mkdate 2026 1 28).
Proof.
  intros Hv Hnot. split; [|split; reflexivity].
  unfold valid_date, valid_date_fields in Hv.
  rewrite !andb_true_iff, !Z.leb_le in Hv.
  destruct Hv as [[[[[Hy1 Hy2] Hm1] Hm2] Hd1] Hd2].
  unfold MINYEAR, MAXYEAR in *.
  unfold _calc_end_date. rewrite clamp_end_day_spec.
  set (e := Z.max 1 (Z.min 28 end_day)).
  assert (1 <= e <= 28) as He by (unfold e; lia).
  destruct (Z.eqb_spec (month today) 12) as [H12|H12].
  - assert (date_new (year today + 1) 1 e = Some (mkdate (year today + 1) 1 e))
      as Hnew.
    { unfold date_new, valid_date_fields, MINYEAR, MAXYEAR.
      pose proof (days_in_month_ge_28 (year today + 1) 1 ltac:(lia)).
      assert (((1 <=? year today + 1) && (year today + 1 <=? 9999)
               && (1 <=? 1) && (1 <=? 12) && (1 <=? e)
               && (e <=? _days_in_month (year today + 1) 1)) = true) as ->;
        [|done].
      rewrite !andb_true_iff, !Z.leb_le. lia. }
    exists (mkdate (year today + 1) 1 e). rewrite Hnew.
    split; [done|]. split.
    { apply date_new_Some in Hnew. tauto. }
    simpl. repeat split; try lia.
  - assert (date_new (year today) (month today + 1) e
            = Some (mkdate (year today) (month today + 1) e)) as Hnew.
    { unfold date_new, valid_date_fields, MINYEAR, MAXYEAR.
      pose proof (days_in_month_ge_28 (year today) (month today + 1)
                    ltac:(lia)).
      assert (((1 <=? year today) && (year today <=? 9999)
               && (1 <=? month today + 1) && (month today + 1 <=? 12)
               && (1 <=? e)
               && (e <=? _days_in_month (year today) (month today + 1)))
              = true) as ->; [|done].
      rewrite !andb_true_iff, !Z.leb_le. lia. }
    exists (mkdate (year today) (month today + 1) e). rewrite Hnew.
    split; [done|]. split.
    { apply date_new_Some in Hnew. tauto. }
    simpl. repeat split; try lia.
Qed.

Lemma calc_end_date_next_month_witness :
  exists d, _calc_end_date 31 (mkdate 2025 12 5) = Some d /\ day d = 28.
Proof.
  destruct (calc_end_date_next_month 31 (mkdate 2025 12 5)) as [[d H] _].
  - reflexivity.
  - left. reflexivity.
  - exists d. split; [tauto|]. destruct H as (_ & _ & -> & _). reflexivity.
Defined.

(** ** Eligibility and the gatekeeper *)

Lemma find_col_sheet_store (s : sheet) (name : string) :
  _find_col (sheet_store s) name = Some (find_col s name).
Proof. reflexivity. Qed.

Lemma parse_blank : _parse_sheet_date (CStr "") = None.
Proof. reflexivity. Qed.

Lemma row_is_paid_total (s : sheet) (today : date) (row_vals : row) :
  exists b, _row_is_paid (sheet_store s) today row_vals = Some b.
Proof. unfold _row_is_paid. rewrite find_col_sheet_store. simpl. eauto. Qed.

Lemma row_is_paid_true (s : sheet) (today : date) (row_vals : row) :
  _row_is_paid (sheet_store s) today row_vals = Some true <->
  exists i v pu,
    find_col s "дата_окончания" = Some i /\
    row_vals !! i = Some v /\
    _parse_sheet_date (CStr v) = Some pu /\
    date_le today pu.
Proof.
  unfold _row_is_paid. rewrite find_col_sheet_store. simpl.
  destruct (find_col s "дата_окончания") as [i|];
    [|split; [done|by intros (? & ? & ? & ? & _)]].
  destruct (row_vals !! i) as [v|] eqn:Hv;
    [|split; [done|intros (? & ? & ? & [= <-] & ? & _); congruence]].
  destruct (_parse_sheet_date (CStr v)) as [pu|] eqn:Hp.
  - split.
    + intros [= Hle]. apply date_leb_spec in Hle. by exists i, v, pu.
    + intros (i' & v' & pu' & [= <-] & Hv' & Hp' & Hle).
      rewrite Hv in Hv'. injection Hv' as <-.
      rewrite Hp in Hp'. injection Hp' as <-.
      f_equal. by apply date_leb_spec.
  - split; [done|].
    intros (i' & v' & pu' & [= <-] & Hv' & Hp' & Hle).
    rewrite Hv in Hv'. injection Hv' as <-. congruence.
Qed.

(** C8: a row is eligible exactly when its stored period-end value parses
    to a date on or after the as-of date; the evaluation always answers, and
    a missing, empty or unparseable value is never eligible. *)
Theorem row_is_paid_iff (s : sheet) (today : date) (row_vals : row) :
  (_row_is_paid (sheet_store s) today row_vals = Some true <->
   exists i v pu,
     find_col s "дата_окончания" = Some i /\
     row_vals !! i = Some v /\
     _parse_sheet_date (CStr v) = Some pu /\
     date_le today pu) /\
  (_row_is_paid (sheet_store s) today row_vals = Some true \/
   _row_is_paid (sheet_store s) today row_vals = Some false) /\
  (forall i v,
      find_col s "дата_окончания" = Some i ->
      row_vals !! i = Some v ->
      _parse_sheet_date (CStr v) = None ->
      _row_is_paid (sheet_store s) today row_vals = Some false) /\
  _parse_sheet_date (CStr "") = None.
Proof.
  split; [apply row_is_paid_true|]. split; [|split; [|reflexivity]].
  - destruct (row_is_paid_total s today row_vals) as [[] ->]; auto.
  - intros i v Hi Hv Hp. unfold _row_is_paid.
    rewrite find_col_sheet_store. simpl. by rewrite Hi, Hv, Hp.
Qed.










(** ** Grouping *)

Section grouping.
Context {A : Type}.
Implicit Types (g : list (Z * list A)) (items : list (Z * A)).

Lemma group_lookup_add k k' (x : A) g :
  group_lookup k' (group_add k x g) =
  if bool_decide (k' = k)
  then Some (default [] (group_lookup k g) ++ [x])
  else group_lookup k' g.
Proof.
  induction g as [|[k0 xs] g IH]; simpl.
  - repeat case_bool_decide; simplify_eq; done.
  - destruct (bool_decide_reflect (k = k0)) as [->|Hne]; simpl.
    + repeat case_bool_decide; simplify_eq; done.
    + rewrite IH. repeat case_bool_decide; simplify_eq; done.
Qed.

Lemma group_add_keys k (x : A) g :
  (group_add k x g).*1 = if bool_decide (k ∈ g.*1) then g.*1 else g.*1 ++ [k].
Proof.
  induction g as [|[k0 xs] g IH].
  - case_bool_decide as H; [by apply elem_of_nil in H|done].
  - cbn [group_add]. destruct (bool_decide_reflect (k = k0)) as [->|Hne].
    + rewrite bool_decide_eq_true_2; [done|]. rewrite fmap_cons. left.
    + rewrite !fmap_cons, IH. cbn [fst].
      destruct (bool_decide_reflect (k ∈ g.*1)) as [Hin|Hnin].
      * rewrite bool_decide_eq_true_2; [done|]. by right.
      * rewrite bool_decide_eq_false_2; [done|].
        rewrite elem_of_cons. tauto.
Qed.

Lemma group_add_NoDup k (x : A) g :
  NoDup g.*1 -> NoDup (group_add k x g).*1.
Proof.
  intros Hnd. rewrite group_add_keys. case_bool_decide; [done|].
  apply NoDup_app. split; [done|]. split.
  - intros y Hy Hy'. apply list_elem_of_singleton in Hy' as ->. done.
  - apply NoDup_singleton.
Qed.

Lemma group_lookup_None k g : group_lookup k g = None <-> k ∉ g.*1.
Proof.
  induction g as [|[k0 xs] g IH]; simpl.
  - split; [intros _; apply not_elem_of_nil|done].
  - case_bool_decide as Hk.
    + subst. split; [done|]. intros []. left.
    + rewrite IH, elem_of_cons. tauto.
Qed.

Lemma group_lookup_elem k xs g :
  NoDup g.*1 -> (k, xs) ∈ g <-> group_lookup k g = Some xs.
Proof.
  induction g as [|[k0 xs0] g IH]; simpl; intros Hnd.
  - split; [intros H; by apply elem_of_nil in H|done].
  - apply NoDup_cons in Hnd as [Hk0 Hnd]. rewrite elem_of_cons.
    case_bool_decide as Hk.
    + subst. split.
      * intros [[= ->]|Hin]; [done|].
        destruct Hk0. apply list_elem_of_fmap. by exists (k0, xs).
      * intros [= ->]. by left.
    + rewrite IH by done. split; [|by right].
      intros [[= ? ?]|?]; [done|done].
Qed.

Lemma items_of_snoc k k' (x : A) items :
  items_of k' (items ++ [(k, x)]) =
  items_of k' items ++ (if bool_decide (k' = k) then [x] else []).
Proof.
  unfold items_of. rewrite filter_app, fmap_app. f_equal.
  rewrite filter_cons, filter_nil. simpl.
  case_decide; case_bool_decide; simplify_eq; done.
Qed.

Lemma group_items_snoc k (x : A) items :
  group_items (items ++ [(k, x)]) = group_add k x (group_items items).
Proof. unfold group_items. by rewrite foldl_app. Qed.

Lemma group_items_lookup k items :
  group_lookup k (group_items items) =
  match items_of k items with
  | [] => None
  | xs => Some xs
  end.
Proof.
  induction items as [|[k0 x] items IH] using rev_ind; [done|].
  rewrite group_items_snoc, group_lookup_add, items_of_snoc.
  case_bool_decide as Hk.
  - subst. rewrite IH. destruct (items_of k0 items); done.
  - by rewrite IH, app_nil_r.
Qed.

Lemma group_items_NoDup items : NoDup (group_items items).*1.
Proof.
  induction items as [|[k0 x] items IH] using rev_ind.
  - apply NoDup_nil_2.
  - rewrite group_items_snoc. by apply group_add_NoDup.
Qed.

(** The groups are exactly the non-empty [items_of]. *)
Lemma group_items_elem k xs items :
  (k, xs) ∈ group_items items <-> xs = items_of k items /\ xs <> [].
Proof.
  rewrite group_lookup_elem by apply group_items_NoDup.
  rewrite group_items_lookup.
  destruct (items_of k items) eqn:E; split.
  - done.
  - intros [-> ?]. done.
  - intros [= <-]. done.
  - intros [-> _]. done.
Qed.

Lemma items_of_elem k (x : A) items :
  x ∈ items_of k items <-> (k, x) ∈ items.
Proof.
  unfold items_of. rewrite list_elem_of_fmap. split.
  - intros ([k' x'] & -> & Hin). apply list_elem_of_filter in Hin as [Hk ?].
    simpl in *. by subst.
  - intros Hin. exists (k, x). split; [done|].
    apply list_elem_of_filter. done.
Qed.
End grouping.

Lemma enumerate_elem {A} (start i : nat) (x : A) (l : list A) :
  (i, x) ∈ enumerate start l <-> (start <= i)%nat /\ l !! (i - start)%nat = Some x.
Proof.
  revert start. induction l as [|y l IH]; intros start; simpl.
  - split; [intros H; by apply elem_of_nil in H|by intros [_ ?]].
  - rewrite elem_of_cons, IH. split.
    + intros [[= -> ->]|[Hle Hl]].
      * split; [lia|]. by replace (start - start)%nat with 0%nat by lia.
      * split; [lia|].
        by replace (i - start)%nat with (S (i - S start)) by lia.
    + intros [Hle Hl]. destruct (decide (i = start)) as [->|Hne].
      * left. replace (start - start)%nat with 0%nat in Hl by lia.
        simpl in Hl. congruence.
      * right. split; [lia|].
        by replace (i - start)%nat with (S (i - S start)) in Hl by lia.
Qed.

Lemma enumerate_fst {A} (start : nat) (l : list A) :
  (enumerate start l).*1 = seq start (length l).
Proof.
  revert start. induction l as [|y l IH]; intros start; simpl; [done|].
  by rewrite IH.
Qed.

Lemma enumerate_snd {A} (start : nat) (l : list A) :
  (enumerate start l).*2 = l.
Proof.
  revert start. induction l as [|y l IH]; intros start; simpl; [done|].
  by rewrite IH.
Qed.

Lemma enumerate_NoDup_fst {A} (start : nat) (l : list A) :
  NoDup (enumerate start l).*1.
Proof. rewrite enumerate_fst. apply NoDup_seq. Qed.

(** ** The row loop *)

Section scan.
Context {R B : Type} (f : R -> option (Z * B)).

Lemma scan_rows_elem (rows : list R) k idx b :
  (k, (idx, b)) ∈ scan_rows f rows <->
  (2 <= idx)%nat /\ exists r, rows !! (idx - 2)%nat = Some r /\ f r = Some (k, b).
Proof.
  unfold scan_rows. rewrite list_elem_of_omap. split.
  - intros ([i r] & Hin & Hf). apply enumerate_elem in Hin as [Hle Hl].
    simpl in Hf. destruct (f r) as [[u b']|] eqn:Hfr; [|done].
    simpl in Hf. injection Hf as -> -> ->. eauto.
  - intros (Hle & r & Hl & Hf). exists (idx, r). split.
    + by apply enumerate_elem.
    + simpl. by rewrite Hf.
Qed.

Lemma scan_rows_sublist (rows : list R) :
  (scan_rows f rows).*2.*1 `sublist_of` (enumerate 2 rows).*1.
Proof.
  unfold scan_rows. generalize (enumerate 2 rows). intros E.
  induction E as [|[i r] E IH]; simpl; [done|].
  destruct (f r) as [[u b]|]; simpl.
  - by apply sublist_skip.
  - by apply sublist_cons.
Qed.

Lemma scan_rows_NoDup (rows : list R) : NoDup (scan_rows f rows).*2.*1.
Proof.
  eapply sublist_NoDup;
    [apply (enumerate_NoDup_fst 2 rows)|apply scan_rows_sublist].
Qed.

Lemma items_of_sublist {C} k (items : list (Z * C)) :
  items_of k items `sublist_of` items.*2.
Proof. unfold items_of. apply fmap_sublist, sublist_filter. Qed.

Lemma scan_group_elem (rows : list R) k xs idx b :
  (k, xs) ∈ group_items (scan_rows f rows) ->
  (idx, b) ∈ xs <->
  (2 <= idx)%nat /\ exists r, rows !! (idx - 2)%nat = Some r /\ f r = Some (k, b).
Proof.
  rewrite group_items_elem. intros [-> _].
  by rewrite items_of_elem, scan_rows_elem.
Qed.

Lemma scan_group_NoDup (rows : list R) k xs :
  (k, xs) ∈ group_items (scan_rows f rows) -> NoDup xs.*1.
Proof.
  rewrite group_items_elem. intros [-> _].
  eapply sublist_NoDup; [apply scan_rows_NoDup|].
  apply fmap_sublist, items_of_sublist.
Qed.

Lemma scan_group_exists (rows : list R) k idx b r :
  (2 <= idx)%nat -> rows !! (idx - 2)%nat = Some r -> f r = Some (k, b) ->
  exists xs, (k, xs) ∈ group_items (scan_rows f rows) /\ (idx, b) ∈ xs.
Proof.
  intros Hle Hl Hf. exists (items_of k (scan_rows f rows)).
  assert ((idx, b) ∈ items_of k (scan_rows f rows)) as Hin.
  { rewrite items_of_elem, scan_rows_elem. eauto. }
  split; [|done]. apply group_items_elem. split; [done|].
  intros Hnil. rewrite Hnil in Hin. by apply elem_of_nil in Hin.
Qed.

(** A row number is filed under one identity only. *)
Lemma scan_group_unique (rows : list R) k1 xs1 k2 xs2 idx b1 b2 :
  (k1, xs1) ∈ group_items (scan_rows f rows) ->
  (k2, xs2) ∈ group_items (scan_rows f rows) ->
  (idx, b1) ∈ xs1 -> (idx, b2) ∈ xs2 ->
  k1 = k2 /\ xs1 = xs2 /\ b1 = b2.
Proof.
  intros Hg1 Hg2 Hin1 Hin2.
  apply (scan_group_elem _ _ _ _ _ Hg1) in Hin1 as (_ & r1 & Hl1 & Hf1).
  apply (scan_group_elem _ _ _ _ _ Hg2) in Hin2 as (_ & r2 & Hl2 & Hf2).
  rewrite Hl1 in Hl2. injection Hl2 as <-. rewrite Hf1 in Hf2.
  injection Hf2 as <- <-. split; [done|]. split; [|done].
  apply group_items_elem in Hg1 as [-> _].
  by apply group_items_elem in Hg2 as [-> _].
Qed.
End scan.

(** ** The removal pass *)

Lemma max_date_spec (d : date) (ds : list date) :
  max_date d ds ∈ d :: ds /\ forall x, x ∈ d :: ds -> date_le x (max_date d ds).
Proof.
  unfold max_date. revert d. induction ds as [|y ds IH]; intros d; simpl.
  - split; [left|]. intros x Hx. apply list_elem_of_singleton in Hx as ->.
    apply date_le_refl.
  - destruct (IH (if date_ltb d y then y else d)) as [Hin Hmax]. split.
    + apply elem_of_cons in Hin as [Heq|Hin].
      * rewrite Heq. destruct (date_ltb d y); [right; left|left].
      * right. by right.
    + intros x Hx.
      assert (date_le d (if date_ltb d y then y else d) /\
              date_le y (if date_ltb d y then y else d)) as [Hd Hy].
      { destruct (date_ltb d y) eqn:E.
        - apply date_ltb_spec in E. split; [by left|apply date_le_refl].
        - split; [apply date_le_refl|].
          apply date_leb_spec. unfold date_leb. by rewrite E. }
      pose proof (Hmax _ (list_elem_of_here _ _)) as Hm.
      apply elem_of_cons in Hx as [->|Hx]; [eauto using date_le_trans|].
      apply elem_of_cons in Hx as [->|Hx]; [eauto using date_le_trans|].
      apply Hmax. by right.
Qed.

Lemma date_le_antisym (a b : date) : date_le a b -> date_le b a -> a = b.
Proof.
  intros [Hab|?] [Hba|?]; try done.
  destruct (date_lt_irrefl a). eauto using date_lt_trans.
Qed.

Lemma is_max_end_unique (m1 m2 : date) (rows_u : list (nat * date)) :
  is_max_end m1 rows_u -> is_max_end m2 rows_u -> m1 = m2.
Proof.
  intros [Hin1 Hmax1] [Hin2 Hmax2]. apply date_le_antisym; eauto.
Qed.

Lemma is_max_end_perm (m : date) (l1 l2 : list (nat * date)) :
  l1 ≡ₚ l2 -> is_max_end m l1 -> is_max_end m l2.
Proof.
  intros Hp [Hin Hmax]. split.
  - by rewrite <- Hp.
  - intros e He. apply Hmax. by rewrite Hp.
Qed.

Lemma sorted_by_perm {A} (f : A -> date * nat) (l : list A) :
  sorted_by f l ≡ₚ l.
Proof. apply merge_sort_Permutation. Qed.

Lemma sorted_by_desc_perm {A} (f : A -> date * nat) (l : list A) :
  sorted_by_desc f l ≡ₚ l.
Proof. apply merge_sort_Permutation. Qed.

(** What one group adds to the two accumulators. *)
Lemma clean_step_acc (cutoff : date) (acc : list Z * list nat)
    (g : Z * list (nat * date)) :
  clean_step cutoff acc g =
  (acc.1 ++ (clean_step cutoff ([], []) g).1,
   acc.2 ++ (clean_step cutoff ([], []) g).2).
Proof.
  unfold clean_step.
  destruct ((sorted_by (fun x => (x.2, x.1)) g.2).*2) as [|d ds]; simpl.
  - by rewrite !app_nil_r, <- surjective_pairing.
  - destruct (date_ltb (max_date d ds) cutoff); simpl; by rewrite ?app_nil_r.
Qed.

Lemma foldl_clean_step (cutoff : date) (acc : list Z * list nat)
    (groups : list (Z * list (nat * date))) :
  foldl (clean_step cutoff) acc groups =
  (acc.1 ++ (groups ≫= fun g => (clean_step cutoff ([], []) g).1),
   acc.2 ++ (groups ≫= fun g => (clean_step cutoff ([], []) g).2)).
Proof.
  revert acc. induction groups as [|g groups IH]; intros acc; simpl.
  - by rewrite !app_nil_r, <- surjective_pairing.
  - rewrite IH, clean_step_acc. simpl. by rewrite <- !app_assoc.
Qed.

Lemma clean_step_kick (cutoff : date) (g : Z * list (nat * date)) (uid : Z) :
  g.2 <> [] ->
  uid ∈ (clean_step cutoff ([], []) g).1 <->
  uid = g.1 /\ exists m, is_max_end m g.2 /\ date_lt m cutoff.
Proof.
  intros Hne. unfold clean_step.
  pose proof (sorted_by_perm (fun x : nat * date => (x.2, x.1)) g.2) as Hp.
  set (rs := sorted_by _ g.2) in *.
  destruct (rs.*2) as [|d ds] eqn:E.
  { apply fmap_nil_inv in E. rewrite E in Hp.
    apply Permutation_nil_l in Hp. done. }
  assert (is_max_end (max_date d ds) g.2) as Hmax.
  { apply (is_max_end_perm _ rs); [done|]. unfold is_max_end. rewrite E.
    apply max_date_spec. }
  destruct (date_ltb (max_date d ds) cutoff) eqn:Hlt; simpl.
  - apply date_ltb_spec in Hlt. rewrite list_elem_of_singleton. split.
    + intros ->. split; [done|]. eauto.
    + by intros [-> _].
  - split; [intros H; by apply elem_of_nil in H|].
    intros [_ (m & Hm & Hlt')].
    rewrite (is_max_end_unique _ _ _ Hm Hmax) in Hlt'.
    apply date_ltb_spec in Hlt'. congruence.
Qed.

Lemma clean_step_delete (cutoff : date) (g : Z * list (nat * date))
    (idx : nat) :
  g.2 <> [] ->
  idx ∈ (clean_step cutoff ([], []) g).2 <->
  exists e m,
    (idx, e) ∈ g.2 /\ is_max_end m g.2 /\ (date_lt m cutoff \/ date_lt e m).
Proof.
  intros Hne. unfold clean_step.
  pose proof (sorted_by_perm (fun x : nat * date => (x.2, x.1)) g.2) as Hp.
  set (rs := sorted_by _ g.2) in *.
  destruct (rs.*2) as [|d ds] eqn:E.
  { apply fmap_nil_inv in E. rewrite E in Hp.
    apply Permutation_nil_l in Hp. done. }
  assert (is_max_end (max_date d ds) g.2) as Hmax.
  { apply (is_max_end_perm _ rs); [done|]. unfold is_max_end. rewrite E.
    apply max_date_spec. }
  destruct (date_ltb (max_date d ds) cutoff) eqn:Hlt; simpl.
  - apply date_ltb_spec in Hlt. rewrite list_elem_of_fmap. split.
    + intros ([i e] & -> & Hin). rewrite Hp in Hin.
      exists e, (max_date d ds). auto.
    + intros (e & m & Hin & _ & _). exists (idx, e).
      split; [done|]. by rewrite Hp.
  - rewrite list_elem_of_fmap. split.
    + intros ([i e] & -> & Hin). apply list_elem_of_filter in Hin as [He Hin].
      simpl in He. apply date_ltb_spec in He. rewrite Hp in Hin.
      exists e, (max_date d ds). auto.
    + intros (e & m & Hin & Hm & Hor).
      rewrite (is_max_end_unique _ _ _ Hm Hmax) in Hor.
      destruct Hor as [Hc|He].
      { apply date_ltb_spec in Hc. congruence. }
      exists (idx, e). split; [done|]. apply list_elem_of_filter.
      split; [by apply date_ltb_spec|by rewrite Hp].
Qed.

Lemma clean_scan_nonempty (records : list (gmap string cell)) uid rows_u :
  (uid, rows_u) ∈ clean_scan records -> rows_u <> [].
Proof. unfold clean_scan. rewrite group_items_elem. tauto. Qed.


Lemma clean_scan_group (records : list (gmap string cell)) uid idx e r :
  (2 <= idx)%nat -> records !! (idx - 2)%nat = Some r ->
  record_uid r = Some uid -> record_end r = Some e ->
  exists rows_u, (uid, rows_u) ∈ clean_scan records /\ (idx, e) ∈ rows_u.
Proof.
  intros Hle Hl Hu He. apply scan_group_exists with (r := r); [done..|].
  unfold clean_row. by rewrite Hu, He.
Qed.

Lemma clean_kick_spec (records : list (gmap string cell)) (today : date)
    (uid : Z) :
  uid ∈ (remove_expired_subscribers records today).1 <->
  exists rows_u m,
    (uid, rows_u) ∈ clean_scan records /\
    is_max_end m rows_u /\ date_lt m (month_start today).
Proof.
  unfold remove_expired_subscribers. rewrite foldl_clean_step. simpl.
  rewrite list_elem_of_bind. split.
  - intros ([u rows_u] & Hin & Hg).
    apply clean_step_kick in Hin; [|by eapply clean_scan_nonempty].
    simpl in Hin. destruct Hin as [-> (m & ? & ?)]. by exists rows_u, m.
  - intros (rows_u & m & Hg & Hm & Hlt). exists (uid, rows_u).
    split; [|done]. apply clean_step_kick.
    + by eapply clean_scan_nonempty.
    + split; [done|]. by exists m.
Qed.

Lemma clean_delete_spec (records : list (gmap string cell)) (today : date)
    (idx : nat) :
  idx ∈ (remove_expired_subscribers records today).2 <->
  exists uid rows_u e m,
    (uid, rows_u) ∈ clean_scan records /\
    (idx, e) ∈ rows_u /\ is_max_end m rows_u /\
    (date_lt m (month_start today) \/ date_lt e m).
Proof.
  unfold remove_expired_subscribers. rewrite foldl_clean_step. simpl.
  rewrite list_elem_of_bind. split.
  - intros ([u rows_u] & Hin & Hg).
    apply clean_step_delete in Hin; [|by eapply clean_scan_nonempty].
    simpl in Hin. destruct Hin as (e & m & ? & ? & ?).
    by exists u, rows_u, e, m.
  - intros (u & rows_u & e & m & Hg & Hin & Hm & Hor). exists (u, rows_u).
    split; [|done]. apply clean_step_delete.
    + by eapply clean_scan_nonempty.
    + by exists e, m.
Qed.

(** C1 (code defect): an identity is a removal candidate exactly when the
    latest parsed period end over its rows is strictly before day 19 of the
    current month, not before day 1 as the pass documents.  A single row
    ending 2025-03-10, on 2025-03-15, is kicked although 2025-03-10 is not
    before 2025-03-01.  The worked scenario of the claim comes out as
    stated (user 2 kicked, rows 3 and 4 marked, user 1 kept). *)
Theorem clean_cutoff_is_day_19 :
  (forall records today uid,
      uid ∈ (remove_expired_subscribers records today).1 <->
      exists rows_u m,
        (uid, rows_u) ∈ clean_scan records /\
        is_max_end m rows_u /\
        date_lt m (mkdate (year today) (month today) 19)) /\
  remove_expired_subscribers [ledger_record 1 "2025-03-10"] (mkdate 2025 3 15)
  = ([1], [2%nat]) /\
  ~ date_lt (mkdate 2025 3 10) (mkdate 2025 3 1) /\
  remove_expired_subscribers
    [ledger_record 1 "2025-03-20"; ledger_record 1 "2025-01-10";
     ledger_record 2 "2024-12-01"] (mkdate 2025 3 15)
  = ([2], [3%nat; 4%nat]).
Proof.
  split; [intros; apply clean_kick_spec|].
  split; [by vm_compute|]. split; [|by vm_compute].
  unfold date_lt. simpl. lia.
Qed.

(** ** Sorting by [(date, row)] keys *)

Lemma key_le_total (a b : date * nat) : key_le a b \/ key_le b a.
Proof.
  unfold key_le. destruct (date_lt_trichotomy a.1 b.1) as [?|[Heq|?]]; auto.
  rewrite Heq. destruct (Nat.le_ge_cases a.2 b.2); auto.
Qed.

Lemma key_le_trans (a b c : date * nat) :
  key_le a b -> key_le b c -> key_le a c.
Proof.
  unfold key_le. intros [H1|[H1 H1']] [H2|[H2 H2']].
  - left. eauto using date_lt_trans.
  - left. by rewrite <- H2.
  - left. by rewrite H1.
  - right. split; [congruence|lia].
Qed.

Lemma key_le_antisym (a b : date * nat) : key_le a b -> key_le b a -> a = b.
Proof.
  unfold key_le. intros [H1|[H1 H1']] [H2|[H2 H2']].
  - destruct (date_lt_irrefl a.1). eauto using date_lt_trans.
  - rewrite H2 in H1. by apply date_lt_irrefl in H1.
  - rewrite H1 in H2. by apply date_lt_irrefl in H2.
  - destruct a, b; simpl in *. f_equal; [done|lia].
Qed.

(** The head of a list sorted in descending key order has the greatest
    key. *)
Lemma sorted_by_desc_head {A} (f : A -> date * nat) (l : list A) h t :
  sorted_by_desc f l = h :: t -> forall y, y ∈ t -> key_le (f y) (f h).
Proof.
  intros Hs y Hy. unfold sorted_by_desc in Hs.
  set (R := fun x y : A => key_le (f y) (f x)) in *.
  assert (Transitive R) as Htr.
  { intros a b c Hab Hbc. unfold R in *. eauto using key_le_trans. }
  assert (Total R) as Htot.
  { intros a b. unfold R. destruct (key_le_total (f a) (f b)); auto. }
  pose proof (StronglySorted_merge_sort R l) as Hss. rewrite Hs in Hss.
  apply StronglySorted_inv in Hss as [_ Hall].
  rewrite Forall_forall in Hall. by apply Hall.
Qed.

(** ** Duplicate purge *)

Lemma purge_group_spec (items : list (nat * option date)) :
  NoDup items.*1 -> items <> [] ->
  exists a t,
    sorted_by_desc purge_key items = a :: t /\
    a ∈ items /\
    (forall x, x ∈ items -> key_le (purge_key x) (purge_key a)) /\
    purge_group items = t.*1 /\
    (forall x, x ∈ items -> x.1 ∈ t.*1 <-> x.1 <> a.1).
Proof.
  intros Hnd Hne.
  pose proof (sorted_by_desc_perm purge_key items) as Hp.
  destruct (sorted_by_desc _ items) as [|a t] eqn:Hs.
  { by apply Permutation_nil_l in Hp. }
  exists a, t. split; [done|].
  assert (a ∈ items) as Ha by (rewrite <- Hp; left).
  split; [done|]. split; [|split].
  - intros x Hx. rewrite <- Hp in Hx. apply elem_of_cons in Hx as [->|Hx].
    + destruct (key_le_total (purge_key a) (purge_key a)); done.
    + by apply (sorted_by_desc_head _ _ _ _ Hs).
  - unfold purge_group. case_decide as Hlen; [|by rewrite Hs].
    apply Permutation_length in Hp. simpl in Hp.
    destruct t; [done|]. simpl in Hp. lia.
  - intros x Hx.
    assert (NoDup (a :: t).*1) as Hnd' by (by rewrite Hp).
    rewrite fmap_cons in Hnd'. apply NoDup_cons in Hnd' as [Hna _].
    split.
    + intros Hin Heq. apply Hna. by rewrite <- Heq.
    + intros Hne'. rewrite <- Hp in Hx. apply elem_of_cons in Hx as [->|Hx].
      * done.
      * by apply list_elem_of_fmap_2.
Qed.

Lemma purge_group_subset (items : list (nat * option date)) (r : nat) :
  r ∈ purge_group items ->
  (1 < length items)%nat /\ exists pu, (r, pu) ∈ items.
Proof.
  unfold purge_group. case_decide as Hlen.
  { intros H. by apply elem_of_nil in H. }
  intros Hin. split; [lia|].
  apply list_elem_of_fmap in Hin as ([r' pu] & -> & Hin).
  exists pu. rewrite <- (sorted_by_desc_perm purge_key).
  destruct (sorted_by_desc _ items); [by apply elem_of_nil in Hin|].
  by right.
Qed.

Lemma purge_to_delete_elem (i_uid i_pu : nat) (data : list row) (r : nat) :
  r ∈ purge_to_delete i_uid i_pu data <->
  exists uid items,
    (uid, items) ∈ purge_scan i_uid i_pu data /\ r ∈ purge_group items.
Proof.
  unfold purge_to_delete. rewrite list_elem_of_bind. split.
  - intros ([uid items] & Hin & Hg). by exists uid, items.
  - intros (uid & items & Hg & Hin). by exists (uid, items).
Qed.

Lemma purge_scan_nonempty (i_uid i_pu : nat) (data : list row) uid items :
  (uid, items) ∈ purge_scan i_uid i_pu data -> items <> [].
Proof. unfold purge_scan. rewrite group_items_elem. tauto. Qed.

(** Within the group of an identity the purge keeps the head of the sorted
    group, which carries the greatest key, and marks every other row. *)
Lemma purge_marks (i_uid i_pu : nat) (data : list row) uid items :
  (uid, items) ∈ purge_scan i_uid i_pu data ->
  exists a t,
    sorted_by_desc purge_key items = a :: t /\
    a ∈ items /\
    (forall x, x ∈ items -> key_le (purge_key x) (purge_key a)) /\
    (forall x, x ∈ items ->
               x.1 ∈ purge_to_delete i_uid i_pu data <-> x.1 <> a.1).
Proof.
  intros Hg.
  pose proof (scan_group_NoDup _ _ _ _ Hg) as Hnd.
  destruct (purge_group_spec items Hnd (purge_scan_nonempty _ _ _ _ _ Hg))
    as (a & t & Hs & Ha & Hmax & Hpg & Hiff).
  exists a, t. split; [done|]. split; [done|]. split; [done|].
  intros [r pu] Hx. simpl. rewrite <- (Hiff _ Hx). simpl.
  rewrite purge_to_delete_elem. split.
  - intros (uid' & items' & Hg' & Hin).
    destruct (purge_group_subset _ _ Hin) as [_ [pu' Hin']].
    destruct (scan_group_unique _ _ _ _ _ _ _ _ _ Hg Hg' Hx Hin')
      as (<- & <- & <-).
    by rewrite <- Hpg.
  - intros Hin. exists uid, items. split; [done|]. by rewrite Hpg.
Qed.

(** C4, as stated, fails for the removal pass: two rows of one identity
    with the same period end are a duplicate for the purge (the lower row
    is marked) and are both kept by the removal pass. *)
Lemma clean_keeps_rows_tied_for_latest :
  purge_to_delete 0 1 [["1"; "2025-03-20"]; ["1"; "2025-03-20"]] = [2%nat] /\
  (remove_expired_subscribers
     [ledger_record 1 "2025-03-20"; ledger_record 1 "2025-03-20"]
     (mkdate 2025 3 15)).2 = [].
Proof. by vm_compute. Qed.

(** C4 (amended): in the dedupe pass ([/purge_dups]), for every identity
    with more than one row the authoritative row is the one with the
    greatest pair (parsed period end, row index), an unparseable or empty
    period end counting as the minimum date, and exactly the other rows of
    that identity are marked; the pass marks nothing else.  The removal
    pass ([/clean]) follows a different rule: among the rows whose period
    end parses, it marks a row exactly when it is strictly earlier than the
    identity's latest period end, or when that latest period end is before
    the cutoff; rows tied for the latest period end are all kept. *)
Theorem dedupe_rule :
  (forall i_uid i_pu data uid items,
      (uid, items) ∈ purge_scan i_uid i_pu data ->
      (1 < length items)%nat ->
      exists a,
        a ∈ items /\
        (uid, a.1) ∈ purge_authoritative i_uid i_pu data /\
        (forall x, x ∈ items -> key_le (purge_key x) (purge_key a)) /\
        (forall x, x ∈ items ->
                   x.1 ∈ purge_to_delete i_uid i_pu data <-> x.1 <> a.1)) /\
  (forall i_uid i_pu data r,
      r ∈ purge_to_delete i_uid i_pu data ->
      exists uid items pu,
        (uid, items) ∈ purge_scan i_uid i_pu data /\
        (1 < length items)%nat /\ (r, pu) ∈ items) /\
  (forall records today uid rows_u idx e m,
      (uid, rows_u) ∈ clean_scan records ->
      (idx, e) ∈ rows_u ->
      is_max_end m rows_u ->
      idx ∈ (remove_expired_subscribers records today).2 <->
      date_lt m (month_start today) \/ date_lt e m).
Proof.
  split; [|split].
  - intros i_uid i_pu data uid items Hg Hlen.
    destruct (purge_marks _ _ _ _ _ Hg) as (a & t & Hs & Ha & Hmax & Hiff).
    exists a. split; [done|]. split; [|split; [exact Hmax|exact Hiff]].
    unfold purge_authoritative. apply list_elem_of_omap.
    exists (uid, items). split; [done|]. simpl. by rewrite Hs.
  - intros i_uid i_pu data r Hin.
    apply purge_to_delete_elem in Hin as (uid & items & Hg & Hin).
    apply purge_group_subset in Hin as [Hlen [pu Hin]].
    by exists uid, items, pu.
  - intros records today uid rows_u idx e m Hg Hin Hm.
    rewrite clean_delete_spec. split.
    + intros (uid' & rows' & e' & m' & Hg' & Hin' & Hm' & Hor).
      destruct (scan_group_unique _ _ _ _ _ _ _ _ _ Hg Hg' Hin Hin')
        as (<- & <- & <-).
      by rewrite (is_max_end_unique _ _ _ Hm Hm').
    + intros Hor. by exists uid, rows_u, e, m.
Qed.

(** ** Broadcast *)

Lemma broadcast_targets_from_spec (i_uid : nat) (data : list row)
    (seen : gset Z) :
  let ids := omap (row_uid i_uid) data in
  let targets := broadcast_targets_from i_uid seen data in
  NoDup targets /\
  (forall u, u ∈ targets <-> u ∈ ids /\ u ∉ seen) /\
  (forall t1 u t2,
      targets = t1 ++ u :: t2 ->
      exists p1 p2,
        ids = p1 ++ u :: p2 /\ (u ∉ p1) /\
        forall x, x ∈ t1 <-> x ∈ p1 /\ x ∉ seen).
Proof.
  revert seen. induction data as [|r data IH]; intros seen; simpl.
  - split; [apply NoDup_nil_2|]. split.
    + intros u. split; [intros H; by apply elem_of_nil in H|].
      intros [H _]. by apply elem_of_nil in H.
    + intros t1 u t2 H. by destruct t1.
  - destruct (row_uid i_uid r) as [v|] eqn:Hr; [|apply IH].
    case_bool_decide as Hv.
    + destruct (IH seen) as (Hnd & Hmem & Hord). split; [done|]. split.
      * intros u. rewrite Hmem, elem_of_cons. split; [tauto|].
        intros [[->|?] ?]; [done|tauto].
      * intros t1 u t2 Heq.
        destruct (Hord t1 u t2 Heq) as (p1 & p2 & Hids & Hu & Ht1).
        assert (u ∉ seen) as Hus.
        { assert (u ∈ broadcast_targets_from i_uid seen data) as Hin.
          { rewrite Heq. apply elem_of_app. right. left. }
          apply Hmem in Hin. tauto. }
        exists (v :: p1), p2. split; [simpl; f_equal; exact Hids|]. split.
        -- rewrite elem_of_cons. intros [->|?]; done.
        -- intros x. rewrite Ht1, elem_of_cons. split; [tauto|].
           intros [[->|?] ?]; [done|tauto].
    + destruct (IH ({[v]} ∪ seen)) as (Hnd & Hmem & Hord). split; [|split].
      * apply NoDup_cons. split; [|done]. rewrite Hmem. set_solver.
      * intros u. rewrite !elem_of_cons, Hmem. split.
        -- intros [->|[? ?]]; [tauto|]. split; [tauto|set_solver].
        -- intros [[->|?] ?]; [tauto|].
           destruct (decide (u = v)); [tauto|]. right. split; [done|].
           set_solver.
      * intros t1 u t2 Heq. destruct t1 as [|w t1].
        -- injection Heq as <- _. exists [], (omap (row_uid i_uid) data).
           split; [done|]. split; [apply not_elem_of_nil|].
           intros x. split; [intros H; by apply elem_of_nil in H|].
           intros [H _]. by apply elem_of_nil in H.
        -- injection Heq as <- Heq.
           destruct (Hord t1 u t2 Heq) as (p1 & p2 & Hids & Hu & Ht1).
           assert (u <> v) as Huv.
           { assert (u ∈ broadcast_targets_from i_uid ({[v]} ∪ seen) data)
               as Hin.
             { rewrite Heq. apply elem_of_app. right. left. }
             apply Hmem in Hin. set_solver. }
           exists (v :: p1), p2. split; [simpl; f_equal; exact Hids|]. split.
           ++ rewrite elem_of_cons. intros [?|?]; done.
           ++ intros x. rewrite !elem_of_cons, Ht1. split.
              ** intros [->|[? ?]]; [tauto|]. split; [tauto|set_solver].
              ** intros [[->|?] ?]; [tauto|].
                 destruct (decide (x = v)); [tauto|]. right.
                 split; [done|]. set_solver.
Qed.

Lemma broadcast_loop_spec (send_message : Z -> send_result) (idx : nat)
    (targets : list Z) (t : tally) :
  let t' := broadcast_loop send_message idx targets t in
  trace t' =
    trace t ++ mjoin (imap (fun i u => recipient_block send_message (idx + i) u)
                           targets) /\
  sent t' =
    (sent t + length (filter (fun u => is_failure (send_message u) = false)
                             targets))%nat /\
  failed t' =
    (failed t + length (filter (fun u => is_failure (send_message u) = true)
                               targets))%nat.
Proof.
  revert idx t. induction targets as [|u targets IH]; intros idx t.
  - simpl. rewrite app_nil_r. repeat split; lia.
  - cbn [broadcast_loop imap mjoin list_join].
    match goal with
    | |- context [broadcast_loop send_message (S idx) targets ?t0] =>
        destruct (IH (S idx) t0) as (Htr & Hs & Hf)
    end.
    cbn zeta. rewrite Htr, Hs, Hf. clear Htr Hs Hf.
    rewrite !filter_cons. unfold recipient_block at 2.
    replace (idx + 0)%nat with idx by lia.
    assert (imap ((fun i u0 => recipient_block send_message (idx + i) u0) ∘ S)
                 targets
            = imap (fun i u0 => recipient_block send_message (S idx + i) u0)
                   targets) as ->.
    { apply imap_ext. intros i x _. simpl. f_equal. lia. }
    destruct (send_message u); case_bool_decide; simpl;
      rewrite <- ?app_assoc; simpl; (split; [done|lia]).
Qed.

Section blocks.
Context (send_message : Z -> send_result).

Lemma imap_blocks_shift (k : nat) (l : list Z) :
  imap ((fun i u => recipient_block send_message (k + i) u) ∘ S) l =
  imap (fun i u => recipient_block send_message (S k + i) u) l.
Proof. apply imap_ext. intros i x _. simpl. f_equal. lia. Qed.

Lemma blocks_sends (k : nat) (l : list Z) :
  omap send_of
    (mjoin (imap (fun i u => recipient_block send_message (k + i) u) l)) = l.
Proof.
  revert k. induction l as [|u l IH]; intros k; [done|].
  cbn [imap mjoin list_join]. rewrite omap_app, imap_blocks_shift, IH.
  unfold recipient_block.
  destruct (send_message u); case_bool_decide; done.
Qed.

Lemma blocks_logs (k : nat) (l : list Z) :
  omap log_of
    (mjoin (imap (fun i u => recipient_block send_message (k + i) u) l)) =
  filter (fun u => send_message u = RaisedTelegramError) l.
Proof.
  revert k. induction l as [|u l IH]; intros k; [done|].
  cbn [imap mjoin list_join].
  rewrite omap_app, imap_blocks_shift, IH, filter_cons.
  unfold recipient_block.
  destruct (send_message u); case_bool_decide; case_decide; done.
Qed.

Lemma div12_succ (k : nat) :
  (S k / 12 = k / 12 + (if bool_decide (S k mod 12 = 0) then 1 else 0))%nat.
Proof.
  pose proof (Nat.div_mod_eq (S k) 12) as H1.
  pose proof (Nat.div_mod_eq k 12) as H2.
  pose proof (Nat.mod_upper_bound (S k) 12) as H3.
  pose proof (Nat.mod_upper_bound k 12) as H4.
  case_bool_decide; lia.
Qed.

Lemma blocks_sleeps (k : nat) (l : list Z) :
  (length (filter (fun e => is_sleep e = true)
             (mjoin (imap (fun i u =>
                             recipient_block send_message (S k + i) u) l)))
   + k / 12 = (k + length l) / 12)%nat.
Proof.
  revert k. induction l as [|u l IH]; intros k.
  - simpl. by rewrite Nat.add_0_r.
  - cbn [imap mjoin list_join].
    rewrite filter_app, length_app, imap_blocks_shift.
    pose proof (IH (S k)) as IH'. pose proof (div12_succ k) as Hd.
    replace (k + length (u :: l))%nat with (S k + length l)%nat
      by (simpl; lia).
    rewrite <- IH'. rewrite Hd.
    replace (S k + 0)%nat with (S k) by lia.
    assert (length (filter (fun e => is_sleep e = true)
                      (recipient_block send_message (S k) u))
            = if bool_decide (S k mod 12 = 0)%nat then 1%nat else 0%nat)
      as ->.
    2: { rewrite (Nat.add_comm (if bool_decide _ then _ else _)).
         rewrite <- Nat.add_assoc. f_equal. apply Nat.add_comm. }
    unfold recipient_block.
    destruct (send_message u); case_bool_decide; done.
Qed.
End blocks.

(** C9, as stated, fails on the logging: a recipient who has blocked the
    bot ([Forbidden]) is counted as failed and nothing is logged. *)
Lemma broadcast_forbidden_is_not_logged :
  let t := broadcast (fun _ => RaisedForbidden) 0 [["5"]] in
  failed t = 1%nat /\ trace t = [EvSend 5] /\ omap log_of (trace t) = [].
Proof. by vm_compute. Qed.

(** C9 (amended): [/broadcast] sends one message per distinct identity of
    the snapshot, in the order of each identity's first occurrence; after
    every 12th recipient it pauses once; a delivery failure never stops
    the remaining sends and is counted, and it is logged when it is a
    [TelegramError] other than [Forbidden]. *)
Theorem broadcast_delivery (send_message : Z -> send_result) (i_uid : nat)
    (data : list row) :
  let ids := omap (row_uid i_uid) data in
  let targets := broadcast_targets i_uid data in
  let t := broadcast send_message i_uid data in
  omap send_of (trace t) = targets /\
  NoDup targets /\
  (forall u, u ∈ targets <-> u ∈ ids) /\
  (forall t1 u t2,
      targets = t1 ++ u :: t2 ->
      exists p1 p2,
        ids = p1 ++ u :: p2 /\ (u ∉ p1) /\ forall x, x ∈ t1 <-> x ∈ p1) /\
  trace t =
    mjoin (imap (fun i u => recipient_block send_message (S i) u) targets) /\
  length (filter (fun e => is_sleep e = true) (trace t))
  = (length targets / 12)%nat /\
  (sent t + failed t)%nat = length targets /\
  failed t
  = length (filter (fun u => is_failure (send_message u) = true) targets) /\
  omap log_of (trace t)
  = filter (fun u => send_message u = RaisedTelegramError) targets.
Proof.
  intros ids targets t. subst ids targets t. unfold broadcast, broadcast_targets.
  destruct (broadcast_targets_from_spec i_uid data ∅) as (Hnd & Hmem & Hord).
  set (targets := broadcast_targets_from i_uid ∅ data) in *.
  destruct (broadcast_loop_spec send_message 1 targets (mk_tally 0 0 []))
    as (Htr & Hs & Hf).
  cbn [trace sent failed app Nat.add] in Htr, Hs, Hf.
  split; [rewrite Htr; apply (blocks_sends send_message 1)|].
  split; [done|]. split; [intros u; rewrite Hmem; set_solver|]. split.
  { intros t1 u t2 Heq. destruct (Hord t1 u t2 Heq) as (p1 & p2 & ? & ? & Hx).
    exists p1, p2. split; [done|]. split; [done|].
    intros x. rewrite Hx. set_solver. }
  split; [done|]. split.
  { rewrite Htr. pose proof (blocks_sleeps send_message 0 targets) as H.
    simpl in H. rewrite Nat.add_0_r in H. exact H. }
  split.
  { rewrite Hs, Hf. clear.
    induction targets as [|u l IH]; [done|]. rewrite !filter_cons.
    destruct (is_failure (send_message u)); simpl in *;
      repeat case_decide; simpl; try done; lia. }
  split; [done|]. rewrite Htr. apply (blocks_logs send_message 1).
Qed.

(** ** Audit *)

Lemma audit_present_fold {A} (get_chat_member : Z -> option string)
    (by_uid : list (Z * A)) (acc : gset Z) (uid : Z) :
  uid ∈ foldl (fun present g =>
                 if in_chat get_chat_member g.1 then {[ g.1 ]} ∪ present
                 else present) acc by_uid <->
  uid ∈ acc \/ (uid ∈ by_uid.*1 /\ in_chat get_chat_member uid = true).
Proof.
  revert acc. induction by_uid as [|g by_uid IH]; intros acc; simpl.
  - split; [auto|]. intros [?|[H _]]; [done|]. by apply elem_of_nil in H.
  - rewrite IH, elem_of_cons.
    destruct (in_chat get_chat_member g.1) eqn:E.
    + rewrite elem_of_union, elem_of_singleton. split.
      * intros [[->|?]|[? ?]]; auto.
      * intros [?|[[->|?] ?]]; auto.
    + split.
      * intros [?|[? ?]]; auto.
      * intros [?|[[->|?] ?]]; auto. congruence.
Qed.

Lemma audit_present_elem {A} (get_chat_member : Z -> option string)
    (by_uid : list (Z * A)) (uid : Z) :
  uid ∈ audit_present get_chat_member by_uid <->
  uid ∈ by_uid.*1 /\ in_chat get_chat_member uid = true.
Proof.
  unfold audit_present. rewrite audit_present_fold. split; [|auto].
  intros [H|?]; [|done]. by apply not_elem_of_empty in H.
Qed.

Lemma status_items_fold {B} (v : string) (items : list (nat * B))
    (m : gmap nat string) (n : nat) :
  foldl (fun m it => <[ it.1 := v ]> m) m items !! n =
  if bool_decide (n ∈ items.*1) then Some v else m !! n.
Proof.
  revert m. induction items as [|it items IH]; intros m.
  - case_bool_decide as H; [by apply elem_of_nil in H|done].
  - cbn [foldl]. rewrite IH, fmap_cons.
    destruct (bool_decide_reflect (n ∈ items.*1)) as [Hin|Hnin].
    + rewrite bool_decide_eq_true_2; [done|]. by right.
    + destruct (decide (n = it.1)) as [->|Hne].
      * rewrite bool_decide_eq_true_2 by left. apply lookup_insert_eq.
      * rewrite bool_decide_eq_false_2.
        -- by apply lookup_insert_ne.
        -- rewrite elem_of_cons. tauto.
Qed.

Lemma status_map_fold_miss {B} (present : gset Z)
    (by_uid : list (Z * list (nat * B))) (m : gmap nat string) (n : nat) :
  (forall g, g ∈ by_uid -> n ∉ g.2.*1) ->
  foldl (fun m g =>
           let status_value :=
             if bool_decide (g.1 ∈ present) then "yes" else "no" in
           foldl (fun m it => <[ it.1 := status_value ]> m) m g.2)
        m by_uid !! n = m !! n.
Proof.
  revert m. induction by_uid as [|g by_uid IH]; intros m Hmiss; simpl; [done|].
  rewrite IH.
  - rewrite status_items_fold. rewrite bool_decide_eq_false_2; [done|].
    apply Hmiss. left.
  - intros g' Hg'. apply Hmiss. by right.
Qed.

Lemma status_map_fold_hit {B} (present : gset Z)
    (by_uid : list (Z * list (nat * B))) (m : gmap nat string) (n : nat)
    (uid : Z) :
  (forall g, g ∈ by_uid -> n ∈ g.2.*1 -> g.1 = uid) ->
  (exists g, g ∈ by_uid /\ n ∈ g.2.*1) ->
  foldl (fun m g =>
           let status_value :=
             if bool_decide (g.1 ∈ present) then "yes" else "no" in
           foldl (fun m it => <[ it.1 := status_value ]> m) m g.2)
        m by_uid !! n
  = Some (if bool_decide (uid ∈ present) then "yes" else "no").
Proof.
  revert m. induction by_uid as [|g by_uid IH]; intros m Hkey Hex; simpl.
  - destruct Hex as (g & Hg & _). by apply elem_of_nil in Hg.
  - destruct (decide (Exists (fun g' => n ∈ g'.2.*1) by_uid)) as [Hlater|Hno].
    + apply IH; [|by apply Exists_exists]. intros g' Hg'. apply Hkey. by right.
    + rewrite Exists_exists in Hno. rewrite status_map_fold_miss.
      2: { intros g' Hg' Hn. apply Hno. by exists g'. }
      destruct Hex as (g' & Hg' & Hn).
      apply elem_of_cons in Hg' as [->|Hg']; [|destruct Hno; by exists g'].
      rewrite status_items_fold, bool_decide_eq_true_2 by done.
      by rewrite (Hkey g (list_elem_of_here _ _) Hn).
Qed.

Lemma audit_row_uid (i_uid : nat) (i_un i_fn i_pu : option nat) (r : row)
    (uid : Z) :
  (exists b, audit_row i_uid i_un i_fn i_pu r = Some (uid, b)) <->
  row_uid i_uid r = Some uid.
Proof.
  unfold audit_row. destruct (row_uid i_uid r) as [u|]; simpl.
  - split.
    + by intros (b & [= -> _]).
    + intros [= ->]. eauto.
  - split; [by intros (b & ?)|done].
Qed.

Lemma audit_row_None (i_uid : nat) (i_un i_fn i_pu : option nat) (r : row) :
  row_uid i_uid r = None -> audit_row i_uid i_un i_fn i_pu r = None.
Proof. unfold audit_row. by intros ->. Qed.

(** C6, as stated, fails on the rows without an identity: a data row whose
    identity cell is blank (or is not an integer) gets the empty text, not
    "no". *)
Lemma audit_blank_identity_row_gets_empty_text :
  audit_subscribers [["user_id"]; ["1"]; [""]; ["2"]]
    (fun uid => if bool_decide (uid = 1) then Some "member" else Some "left")
  = [OpUpdateCell 1 2 "in_channel"; OpUpdateRange 2 2 4 ["yes"; ""; "no"]].
Proof. by vm_compute. Qed.

(** C6 (amended): when the snapshot has a header row with an identity
    column, the audit writes the [in_channel] column back in one ranged
    update that spans the data rows 2 .. 1 + n: "yes" for every row of an
    identity found present in the channel, "no" for every row of an
    identity not found present, and the empty text for every row that
    carries no identity. *)
Theorem audit_in_channel_writeback (s : sheet)
    (get_chat_member : Z -> option string) (headers : row) (data : list row)
    (i_uid : nat) :
  get_all_values s = headers :: data ->
  first_alias_index (aliases_of "user_id") headers = Some i_uid ->
  exists col values,
    filter (fun op => is_range_update op = true)
           (audit_subscribers s get_chat_member)
    = [OpUpdateRange col 2 (1 + length data) values] /\
    col = S (default (length (row_values s 1))
                     (index_of "in_channel" (row_values s 1))) /\
    length values = length data /\
    forall k r,
      data !! k = Some r ->
      values !! k =
      Some (match row_uid i_uid r with
            | Some uid => if in_chat get_chat_member uid then "yes" else "no"
            | None => ""
            end).
Proof.
  intros Hrows Hcol. unfold audit_subscribers. rewrite Hrows, Hcol.
  set (f := audit_row i_uid _ _ _).
  set (by_uid := group_items (scan_rows f data)).
  set (present := audit_present get_chat_member by_uid).
  set (values := (fun row_num => default "" (audit_status_map present by_uid
                                               !! row_num))
                   <$> seq 2 (length data)).
  exists (S (default (length (row_values s 1))
                     (index_of "in_channel" (row_values s 1)))), values.
  split; [|split; [done|split]].
  - destruct (index_of "in_channel" (row_values s 1)); reflexivity.
  - unfold values. by rewrite length_fmap, length_seq.
  - intros k r Hk. unfold values. rewrite list_lookup_fmap.
    assert (k < length data)%nat as Hlt by (by eapply lookup_lt_Some).
    rewrite lookup_seq_lt by done. simpl. f_equal.
    unfold audit_status_map.
    assert (data !! (2 + k - 2)%nat = Some r) as Hk'.
    { by replace (2 + k - 2)%nat with k by lia. }
    destruct (row_uid i_uid r) as [uid|] eqn:Hu.
    + assert (exists b, f r = Some (uid, b)) as [b Hb].
      { by apply audit_row_uid. }
      destruct (scan_group_exists f data uid (2 + k) b r ltac:(lia) Hk' Hb)
        as (xs & Hg & Hin).
      rewrite (status_map_fold_hit present by_uid ∅ (2 + k) uid).
      * simpl. f_equal.
        destruct (in_chat get_chat_member uid) eqn:Hc.
        -- rewrite bool_decide_eq_true_2; [done|].
           apply audit_present_elem. split; [|done].
           apply list_elem_of_fmap. by exists (uid, xs).
        -- rewrite bool_decide_eq_false_2; [done|].
           intros Hp. apply audit_present_elem in Hp as [_ Hp]. congruence.
      * intros [k' xs'] Hg' Hn. cbn [fst snd] in *.
        apply list_elem_of_fmap in Hn as ([n b'] & Hn & Hin'). simpl in Hn.
        subst n.
        by destruct (scan_group_unique f data _ _ _ _ _ _ _ Hg' Hg Hin' Hin)
          as (-> & _).
      * exists (uid, xs). split; [done|]. simpl.
        apply list_elem_of_fmap. by exists (2 + k, b)%nat.
    + rewrite status_map_fold_miss; [by rewrite lookup_empty|].
      intros [k' xs'] Hg' Hn. cbn [fst snd] in *.
      apply list_elem_of_fmap in Hn as ([n b'] & Hn & Hin'). simpl in Hn.
      subst n.
      apply (scan_group_elem f data _ _ _ _ Hg') in Hin'
        as (_ & r' & Hr' & Hf').
      assert (r' = r) as ->.
      { assert (data !! k = Some r') as Hr''
          by (rewrite <- Hr'; f_equal; lia).
        congruence. }
      assert (row_uid i_uid r = Some k') as Hu'.
      { unfold f in Hf'. eapply audit_row_uid. by exists b'. }
      congruence.
Qed.

Lemma audit_in_channel_writeback_witness :
  exists col values,
    filter (fun op => is_range_update op = true)
           (audit_subscribers [["user_id"]; ["1"]; [""]] (fun _ => Some "member"))
    = [OpUpdateRange col 2 3 values] /\ values !! 1%nat = Some "".
Proof.
  destruct (audit_in_channel_writeback [["user_id"]; ["1"]; [""]]
              (fun _ => Some "member") ["user_id"] [["1"]; [""]] 0
              eq_refl eq_refl) as (col & values & Hops & _ & _ & Hval).
  exists col, values. split; [exact Hops|]. exact (Hval 1%nat [""] eq_refl).
Defined.

(** ** Deleting rows from the bottom up *)

Lemma filter_ext_in {A} (P1 P2 : A -> Prop) `{!forall x, Decision (P1 x)}
    `{!forall x, Decision (P2 x)} (l : list A) :
  (forall x, x ∈ l -> P1 x <-> P2 x) -> filter P1 l = filter P2 l.
Proof.
  induction l as [|a l IH]; intros Hiff; [done|].
  rewrite !filter_cons.
  rewrite IH by (intros x Hx; apply Hiff; by right).
  destruct (decide (P1 a)) as [H1|H1]; destruct (decide (P2 a)) as [H2|H2];
    try done; exfalso; apply (Hiff a (list_elem_of_here _ _)) in H1 || 
    apply (Hiff a (list_elem_of_here _ _)) in H2; done.
Qed.

Lemma delete_out_of_range {A} (l : list A) (i : nat) :
  (length l <= i)%nat -> delete i l = l.
Proof.
  revert i. induction l as [|x l IH]; intros i Hi; [done|].
  destruct i as [|i]; simpl in *; [lia|]. rewrite IH; [done|lia].
Qed.

Lemma enumerate_app {A} (start : nat) (l1 l2 : list A) :
  enumerate start (l1 ++ l2) =
  enumerate start l1 ++ enumerate (start + length l1) l2.
Proof.
  revert start. induction l1 as [|x l1 IH]; intros start; simpl.
  - by rewrite Nat.add_0_r.
  - rewrite IH. do 3 f_equal. lia.
Qed.

Lemma enumerate_bounds {A} (start i : nat) (x : A) (l : list A) :
  (i, x) ∈ enumerate start l -> (start <= i < start + length l)%nat.
Proof.
  intros [Hle Hl]%enumerate_elem. apply lookup_lt_Some in Hl. lia.
Qed.

Lemma filter_enumerate_all {A} (P : nat * A -> Prop)
    `{!forall x, Decision (P x)} (start : nat) (l : list A) :
  (forall i x, (start <= i)%nat -> P (i, x)) ->
  (filter P (enumerate start l)).*2 = l.
Proof.
  revert start. induction l as [|x l IH]; intros start HP; [done|].
  simpl. rewrite filter_cons_True by (apply HP; lia).
  simpl. rewrite IH; [done|]. intros i y Hi. apply HP. lia.
Qed.

Lemma unmarked_rows_delete {A} (r : nat) (marked : list nat) (rows : list A) :
  (2 <= r)%nat -> (forall x, x ∈ marked -> (x < r)%nat) ->
  unmarked_rows marked (delete (r - 2)%nat rows) =
  unmarked_rows (r :: marked) rows.
Proof.
  intros Hr Hlt. unfold unmarked_rows.
  destruct (rows !! (r - 2)%nat) as [x|] eqn:Hx.
  - pose proof (take_drop_middle _ _ _ Hx) as Hsplit.
    pose proof (lookup_lt_Some _ _ _ Hx) as Hlen.
    set (pre := take (r - 2) rows) in *. set (post := drop (S (r - 2)) rows) in *.
    assert (length pre = (r - 2)%nat) as Hpre.
    { unfold pre. rewrite length_take. lia. }
    rewrite <- Hsplit. rewrite <- Hpre at 1. rewrite delete_middle.
    rewrite !enumerate_app. simpl. rewrite !filter_app, !fmap_app.
    rewrite filter_cons_False
      by (simpl; rewrite elem_of_cons; intros Hn; apply Hn; left; lia).
    f_equal.
    + f_equal. apply filter_ext_in. intros [i y] Hin. simpl.
      apply enumerate_bounds in Hin. rewrite elem_of_cons.
      split; [|tauto]. intros Hn [->|?]; [lia|done].
    + transitivity post.
      * apply filter_enumerate_all.
        intros i y Hi Hin. simpl in Hin. apply Hlt in Hin. lia.
      * symmetry. apply filter_enumerate_all.
        intros i y Hi. simpl. rewrite elem_of_cons. intros [->|Hin]; [lia|].
        apply Hlt in Hin. lia.
  - apply lookup_ge_None in Hx. rewrite delete_out_of_range by done.
    f_equal. apply filter_ext_in. intros [i y] Hin. simpl.
    apply enumerate_bounds in Hin. rewrite elem_of_cons.
    split; [|tauto]. intros Hn [->|?]; [lia|done].
Qed.

Lemma unmarked_rows_nil {A} (rows : list A) : unmarked_rows [] rows = rows.
Proof.
  unfold unmarked_rows.
  apply filter_enumerate_all. intros i x _. apply not_elem_of_nil.
Qed.

Lemma unmarked_rows_ext {A} (m1 m2 : list nat) (rows : list A) :
  (forall i, i ∈ m1 <-> i ∈ m2) -> unmarked_rows m1 rows = unmarked_rows m2 rows.
Proof.
  intros Hiff. unfold unmarked_rows. f_equal. apply list_filter_iff.
  intros [i x]. simpl. by rewrite Hiff.
Qed.

(** Deleting single rows in strictly descending order leaves the rows
    that were not listed: no deletion shifts a row still to delete. *)
Lemma foldl_delete_descending {A} (l : list nat) (rows : list A) :
  StronglySorted (fun a b => (b < a)%nat) l ->
  (forall r, r ∈ l -> (2 <= r)%nat) ->
  foldl (fun d r => delete (r - 2)%nat d) rows l = unmarked_rows l rows.
Proof.
  revert rows. induction l as [|r l IH]; intros rows Hs Hge; simpl.
  - by rewrite unmarked_rows_nil.
  - apply StronglySorted_inv in Hs as [Hs Hall].
    rewrite Forall_forall in Hall.
    rewrite IH; [|done|intros; apply Hge; by right].
    apply unmarked_rows_delete; [apply Hge; left|done].
Qed.

Lemma descending_rows_elem (to_delete : list nat) (r : nat) :
  r ∈ descending_rows to_delete <-> r ∈ to_delete.
Proof.
  unfold descending_rows. rewrite merge_sort_Permutation.
  apply elem_of_remove_dups.
Qed.



(** Each call names the highest row of its run first. *)
Example delete_calls_of_a_run :
  delete_ranges [3; 4; 7]%nat = [(7, 7); (3, 4)]%nat /\
  delete_calls [3; 4; 7]%nat = [(7, 7); (4, 3)]%nat.
Proof. by vm_compute. Qed.

Lemma descending_rows_sorted (to_delete : list nat) :
  StronglySorted (fun a b => (b < a)%nat) (descending_rows to_delete).
Proof.
  assert (StronglySorted (flip Nat.le) (descending_rows to_delete)) as Hs.
  { apply StronglySorted_merge_sort.
    - intros a b c. unfold flip. lia.
    - intros a b. unfold flip. lia. }
  assert (NoDup (descending_rows to_delete)) as Hnd.
  { unfold descending_rows. rewrite merge_sort_Permutation.
    apply NoDup_remove_dups. }
  induction Hs as [|a l Hs IH Hall]; [constructor|].
  apply NoDup_cons in Hnd as [Hna Hnd]. constructor; [by apply IH|].
  rewrite Forall_forall in *. intros x Hx. specialize (Hall x Hx).
  unfold flip in Hall. assert (x <> a) by (by intros ->). lia.
Qed.

Lemma delete_data_rows_unmarked (data : list row) (to_delete : list nat) :
  (forall r, r ∈ to_delete -> (2 <= r)%nat) ->
  delete_data_rows data to_delete = unmarked_rows to_delete data.
Proof.
  intros Hge. unfold delete_data_rows.
  rewrite foldl_delete_descending.
  - apply unmarked_rows_ext, descending_rows_elem.
  - apply descending_rows_sorted.
  - intros r Hr. apply Hge. by apply descending_rows_elem.
Qed.

(** ** The deletion loop of the removal pass *)
















(** ** Running the purge twice *)

Lemma length_items_of_scan {R B} (f : R -> option (Z * B)) (k : Z)
    (rows : list R) :
  length (items_of k (scan_rows f rows)) =
  length (filter (fun r => fst <$> f r = Some k) rows).
Proof.
  unfold scan_rows. generalize 2%nat as start.
  induction rows as [|x rows IH]; intros start; [done|].
  cbn [enumerate omap list_omap]. rewrite filter_cons. cbn [snd].
  destruct (f x) as [[u b]|] eqn:Hf; simpl.
  - unfold items_of in *. rewrite filter_cons. cbn [fst].
    destruct (decide (u = k)) as [->|Hne].
    + rewrite decide_True by done. simpl. by rewrite IH.
    + rewrite decide_False by congruence. apply IH.
  - apply IH.
Qed.

Lemma filter_fmap_snd {A} (P : A -> Prop) `{!forall x, Decision (P x)}
    (l : list (nat * A)) :
  filter P l.*2 = (filter (fun ir => P ir.2) l).*2.
Proof.
  induction l as [|[i x] l IH]; [done|].
  rewrite fmap_cons, !filter_cons. simpl.
  destruct (decide (P x)); simpl; by rewrite IH.
Qed.

Lemma NoDup_all_equal_length {A} (l : list A) :
  NoDup l -> (forall x y, x ∈ l -> y ∈ l -> x = y) -> (length l <= 1)%nat.
Proof.
  intros Hnd Heq. destruct l as [|x [|y l]]; simpl; [lia|lia|].
  exfalso. apply NoDup_cons in Hnd as [Hx _]. apply Hx.
  rewrite (Heq x y); [left|left|right; left].
Qed.

Lemma enumerate_NoDup {A} (start : nat) (l : list A) :
  NoDup (enumerate start l).
Proof. eapply NoDup_fmap_1, enumerate_NoDup_fst. Qed.

Lemma enumerate_functional {A} (start i : nat) (x y : A) (l : list A) :
  (i, x) ∈ enumerate start l -> (i, y) ∈ enumerate start l -> x = y.
Proof. intros [_ Hx]%enumerate_elem [_ Hy]%enumerate_elem. congruence. Qed.

Lemma unmarked_rows_elem {A} (marked : list nat) (rows : list A) (x : A) :
  x ∈ unmarked_rows marked rows <->
  exists i, (i, x) ∈ enumerate 2 rows /\ i ∉ marked.
Proof.
  unfold unmarked_rows. rewrite list_elem_of_fmap. split.
  - intros ([i y] & -> & Hin). apply list_elem_of_filter in Hin as [? ?].
    by exists i.
  - intros (i & Hin & Hni). exists (i, x). split; [done|].
    by apply list_elem_of_filter.
Qed.

Section purge_twice.
Context (i_uid i_pu : nat) (data : list row).

Lemma purge_to_delete_ge2 (r : nat) :
  r ∈ purge_to_delete i_uid i_pu data -> (2 <= r)%nat.
Proof.
  intros (uid & items & Hg & Hin)%purge_to_delete_elem.
  apply purge_group_subset in Hin as [_ [pu Hin]].
  unfold purge_scan in Hg.
  by apply (scan_group_elem _ _ _ _ _ _ Hg) in Hin as [? _].
Qed.

(** A row that carries an identity belongs to the group of that
    identity. *)
Lemma purge_row_in_group (i : nat) (r : row) (k : Z) :
  (i, r) ∈ enumerate 2 data ->
  fst <$> purge_row i_uid i_pu r = Some k ->
  exists items pu,
    (k, items) ∈ purge_scan i_uid i_pu data /\ (i, pu) ∈ items.
Proof.
  intros [Hle Hl]%enumerate_elem Hf.
  destruct (purge_row i_uid i_pu r) as [[u pu]|] eqn:Hr; [|done].
  simpl in Hf. injection Hf as ->.
  destruct (scan_group_exists (purge_row i_uid i_pu) data k i pu r Hle Hl Hr)
    as (items & Hg & Hin).
  by exists items, pu.
Qed.

(** The rows of an identity that survive the purge are one and the same
    row. *)
Lemma purge_survivor_unique (k : Z) (ir1 ir2 : nat * row) :
  ir1 ∈ enumerate 2 data -> ir2 ∈ enumerate 2 data ->
  ir1.1 ∉ purge_to_delete i_uid i_pu data ->
  ir2.1 ∉ purge_to_delete i_uid i_pu data ->
  fst <$> purge_row i_uid i_pu ir1.2 = Some k ->
  fst <$> purge_row i_uid i_pu ir2.2 = Some k ->
  ir1 = ir2.
Proof.
  destruct ir1 as [i1 r1], ir2 as [i2 r2]. simpl.
  intros Hin1 Hin2 Hn1 Hn2 Hf1 Hf2.
  destruct (purge_row_in_group _ _ _ Hin1 Hf1) as (items & pu1 & Hg & Hi1).
  destruct (purge_row_in_group _ _ _ Hin2 Hf2) as (items' & pu2 & Hg' & Hi2).
  assert (items' = items) as ->.
  { unfold purge_scan in *. apply group_items_elem in Hg as [-> _].
    by apply group_items_elem in Hg' as [-> _]. }
  destruct (purge_marks _ _ _ _ _ Hg) as (a & t & _ & _ & _ & Hiff).
  assert (i1 = a.1) as ->.
  { destruct (decide (i1 = a.1)) as [|Hne]; [done|].
    destruct Hn1. by apply (Hiff (i1, pu1)). }
  assert (i2 = a.1) as ->.
  { destruct (decide (i2 = a.1)) as [|Hne]; [done|].
    destruct Hn2. by apply (Hiff (i2, pu2)). }
  f_equal. by eapply enumerate_functional.
Qed.

Lemma purged_group_length (k : Z) :
  (length (items_of k
             (scan_rows (purge_row i_uid i_pu)
                (unmarked_rows (purge_to_delete i_uid i_pu data) data)))
   <= 1)%nat.
Proof.
  rewrite length_items_of_scan. unfold unmarked_rows.
  rewrite filter_fmap_snd, length_fmap.
  apply NoDup_all_equal_length.
  - apply NoDup_filter, NoDup_filter, enumerate_NoDup.
  - intros x y [Hfx [Hnx Hx]%list_elem_of_filter]%list_elem_of_filter
               [Hfy [Hny Hy]%list_elem_of_filter]%list_elem_of_filter.
    by apply (purge_survivor_unique k).
Qed.

Lemma purge_after_purge :
  purge_to_delete i_uid i_pu
    (unmarked_rows (purge_to_delete i_uid i_pu data) data) = [].
Proof.
  set (data' := unmarked_rows _ data).
  destruct (purge_to_delete i_uid i_pu data') as [|r l] eqn:E; [done|].
  assert (r ∈ purge_to_delete i_uid i_pu data') as Hin
    by (rewrite E; left).
  apply purge_to_delete_elem in Hin as (uid & items & Hg & Hin).
  apply purge_group_subset in Hin as [Hlen _].
  unfold purge_scan in Hg. apply group_items_elem in Hg as [-> _].
  pose proof (purged_group_length uid). fold data' in H. lia.
Qed.

Lemma singleton_of_length_le_1 {A} (l : list A) (x : A) :
  x ∈ l -> (length l <= 1)%nat -> l = [x].
Proof.
  destruct l as [|y [|z l]]; simpl; intros Hin Hlen.
  - by apply elem_of_nil in Hin.
  - by apply list_elem_of_singleton in Hin as ->.
  - lia.
Qed.

Lemma authoritative_row_after_purge (uid : Z) :
  authoritative_row i_uid i_pu
    (unmarked_rows (purge_to_delete i_uid i_pu data) data) uid
  = authoritative_row i_uid i_pu data uid.
Proof.
  set (del := purge_to_delete i_uid i_pu data).
  set (data' := unmarked_rows del data).
  set (f := purge_row i_uid i_pu).
  unfold authoritative_row, purge_scan. rewrite !group_items_lookup.
  fold f.
  destruct (items_of uid (scan_rows f data)) as [|x0 xs0] eqn:E.
  - assert (items_of uid (scan_rows f data') = []) as ->; [|done].
    apply nil_length_inv. rewrite length_items_of_scan.
    assert (length (filter (fun r => fst <$> f r = Some uid) data) = 0%nat)
      as Hno by (by rewrite <- length_items_of_scan, E).
    apply nil_length_inv in Hno.
    destruct (filter _ data') as [|r l] eqn:E'; [done|]. exfalso.
    assert (r ∈ filter (fun r => fst <$> f r = Some uid) data') as Hr
      by (rewrite E'; left).
    apply list_elem_of_filter in Hr as [Hfr Hr].
    apply unmarked_rows_elem in Hr as (i & [_ Hi]%enumerate_elem & _).
    assert (r ∈ filter (fun r => fst <$> f r = Some uid) data) as Hr'.
    { apply list_elem_of_filter. split; [done|].
      by eapply list_elem_of_lookup_2. }
    rewrite Hno in Hr'. by apply elem_of_nil in Hr'.
  - assert ((uid, x0 :: xs0) ∈ purge_scan i_uid i_pu data) as Hg.
    { unfold purge_scan. apply group_items_elem. fold f. by rewrite E. }
    destruct (purge_marks _ _ _ _ _ Hg) as (a & t & Hs & Ha & _ & Hiff).
    cbn [mbind option_bind]. rewrite Hs. cbn [head mbind option_bind].
    assert (a.1 ∉ del) as Hna.
    { intros Hin. by apply (Hiff a Ha) in Hin. }
    destruct a as [ia pua]. cbn [fst] in *.
    unfold purge_scan in Hg.
    apply (scan_group_elem _ _ _ _ _ _ Hg) in Ha as (Hle & ra & Hra & Hfa).
    rewrite Hra.
    assert (ra ∈ data') as Hin'.
    { apply unmarked_rows_elem. exists ia. split; [|done].
      by apply enumerate_elem. }
    apply list_elem_of_lookup in Hin' as [j Hj].
    assert (data' !! (2 + j - 2)%nat = Some ra) as Hj'.
    { by replace (2 + j - 2)%nat with j by lia. }
    destruct (scan_group_exists f data' uid (2 + j) pua ra ltac:(lia) Hj' Hfa)
      as (xs' & Hg' & Hin'').
    apply group_items_elem in Hg' as [Hxs' _]. rewrite <- Hxs'.
    assert (xs' = [((2 + j)%nat, pua)]) as ->.
    { apply singleton_of_length_le_1; [done|]. rewrite Hxs'.
      apply purged_group_length. }
    cbn [mbind option_bind].
    assert (sorted_by_desc purge_key [((2 + j)%nat, pua)]
            = [((2 + j)%nat, pua)]) as ->.
    { symmetry. apply Permutation_singleton_l. symmetry.
      apply sorted_by_desc_perm. }
    cbn [head mbind option_bind fst]. exact Hj'.
Qed.
End purge_twice.

(** C7: running the duplicate removal on the snapshot left by deleting the
    rows marked in a first run marks no row, and every identity keeps the
    same authoritative row (the same stored row, whatever its new row
    number). *)
Theorem purge_twice_idempotent (i_uid i_pu : nat) (data : list row) :
  let data' := delete_data_rows data (purge_to_delete i_uid i_pu data) in
  purge_to_delete i_uid i_pu data' = [] /\
  forall uid,
    authoritative_row i_uid i_pu data' uid
    = authoritative_row i_uid i_pu data uid.
Proof.
  intros data'. subst data'.
  rewrite delete_data_rows_unmarked by apply purge_to_delete_ge2.
  split; [apply purge_after_purge|apply authoritative_row_after_purge].
Qed.

(** ** Trailing blanks and header completion *)

Lemma dtb_nil_iff (r : row) :
  drop_trailing_blanks r = [] <-> forall c, c ∈ r -> c = "".
Proof.
  induction r as [|c r IH]; simpl.
  - split; [|done]. intros _ c Hc. by apply elem_of_nil in Hc.
  - destruct (drop_trailing_blanks r) as [|t ts] eqn:E.
    + case_bool_decide as Hc.
      * split; [|done]. intros _ c' [->|Hc']%elem_of_cons; [done|].
        by apply IH.
      * split; [done|]. intros Hall. destruct Hc. apply Hall. left.
    + split; [done|]. intros Hall.
      assert (t :: ts = []); [|done].
      apply IH. intros c' Hc'. apply Hall. by right.
Qed.

Lemma dtb_snoc_nonblank (r : row) (x : string) :
  x <> "" -> drop_trailing_blanks (r ++ [x]) = r ++ [x].
Proof.
  intros Hx. induction r as [|c r IH]; simpl.
  - by rewrite bool_decide_eq_false_2.
  - rewrite IH. by destruct (r ++ [x]) eqn:E; [destruct r|].
Qed.

Lemma dtb_app_blanks (r : row) (k : nat) :
  drop_trailing_blanks (r ++ replicate k "") = drop_trailing_blanks r.
Proof.
  assert (drop_trailing_blanks (replicate k "") = []) as Hb.
  { apply dtb_nil_iff. by intros c [-> _]%elem_of_replicate. }
  induction r as [|c r IH]; simpl; [done|]. by rewrite IH.
Qed.

Lemma dtb_decompose (r : row) :
  exists k, r = drop_trailing_blanks r ++ replicate k "".
Proof.
  induction r as [|c r [k IH]]; simpl.
  - by exists 0%nat.
  - destruct (drop_trailing_blanks r) as [|t ts] eqn:E.
    + simpl in IH. case_bool_decide as Hc.
      * exists (S k). simpl. by rewrite Hc, IH.
      * exists k. simpl. by rewrite IH.
    + exists k. simpl. by rewrite IH at 1.
Qed.

Lemma dtb_idem (r : row) :
  drop_trailing_blanks (drop_trailing_blanks r) = drop_trailing_blanks r.
Proof.
  induction r as [|c r IH]; simpl; [done|].
  destruct (drop_trailing_blanks r) as [|t ts] eqn:E.
  - case_bool_decide as Hc; simpl; [done|].
    by rewrite bool_decide_eq_false_2.
  - cbn [drop_trailing_blanks]. cbn [drop_trailing_blanks] in IH.
    by rewrite IH.
Qed.

Lemma dtb_subseteq (r : row) (c : string) :
  c ∈ drop_trailing_blanks r -> c ∈ r.
Proof.
  destruct (dtb_decompose r) as [k Hk]. intros Hc. rewrite Hk.
  apply elem_of_app. by left.
Qed.

(** Overwriting the head of a row with values that end in a non-blank
    cell and cover everything the row held gives back these values. *)
Lemma dtb_overwrite_prefix (vals old : row) :
  drop_trailing_blanks vals = vals ->
  (length (drop_trailing_blanks old) <= length vals)%nat ->
  drop_trailing_blanks (overwrite_prefix vals old) = vals.
Proof.
  intros Hv Hlen. unfold overwrite_prefix.
  destruct (dtb_decompose old) as [k Hk]. rewrite Hk at 1.
  rewrite drop_app_ge by done. rewrite drop_replicate.
  by rewrite dtb_app_blanks.
Qed.

Lemma ensure_fold_changed (wanted : list string) (hs : row) :
  (foldl ensure_step (hs, true) wanted).2 = true.
Proof.
  revert hs. induction wanted as [|w wanted IH]; intros hs; [done|].
  cbn [foldl].
  assert (ensure_step (hs, true) w
          = if bool_decide (w ∈ hs) then (hs, true) else (hs ++ [w], true))
    as -> by reflexivity.
  case_bool_decide; apply IH.
Qed.

Lemma ensure_fold_spec (wanted : list string) (hs : row) (ch : bool) :
  let res := foldl ensure_step (hs, ch) wanted in
  (forall h, h ∈ wanted -> h ∈ res.1) /\
  (forall h, h ∈ hs -> h ∈ res.1) /\
  (forall h, h ∈ res.1 -> h ∈ hs \/ h ∈ wanted) /\
  (drop_trailing_blanks hs = hs -> (forall h, h ∈ wanted -> h <> "") ->
   drop_trailing_blanks res.1 = res.1) /\
  (length hs <= length res.1)%nat /\
  ((forall h, h ∈ wanted -> h ∈ hs) -> res = (hs, ch)) /\
  (ch = false -> res.2 = false -> res.1 = hs).
Proof.
  revert hs ch. induction wanted as [|w wanted IH]; intros hs ch; cbn zeta.
  - simpl. split; [intros h Hh; by apply elem_of_nil in Hh|].
    repeat split; auto.
  - cbn [foldl].
    assert (ensure_step (hs, ch) w
            = if bool_decide (w ∈ hs) then (hs, ch) else (hs ++ [w], true))
      as -> by reflexivity.
    case_bool_decide as Hw.
    + destruct (IH hs ch) as (H1 & H2 & H3 & H4 & H5 & H6 & H7).
      split; [|split; [|split; [|split; [|split; [|split]]]]].
      * intros h [->|Hh]%elem_of_cons; auto.
      * exact H2.
      * intros h Hh. destruct (H3 h Hh); auto. right. by right.
      * intros Hd Hnb. apply H4; [done|]. intros h Hh. apply Hnb. by right.
      * exact H5.
      * intros Hall. apply H6. intros h Hh. apply Hall. by right.
      * exact H7.
    + destruct (IH (hs ++ [w]) true) as (H1 & H2 & H3 & H4 & H5 & H6 & H7).
      split; [|split; [|split; [|split; [|split; [|split]]]]].
      * intros h [->|Hh]%elem_of_cons; auto. apply H2, elem_of_app.
        right. left.
      * intros h Hh. apply H2, elem_of_app. by left.
      * intros h Hh. destruct (H3 h Hh) as [Hin|Hin].
        -- apply elem_of_app in Hin as [?|Hin]; auto.
           apply list_elem_of_singleton in Hin as ->. right. left.
        -- right. by right.
      * intros Hd Hnb. apply H4.
        -- apply dtb_snoc_nonblank, Hnb. left.
        -- intros h Hh. apply Hnb. by right.
      * eapply Nat.le_trans; [|exact H5]. rewrite length_app. lia.
      * intros Hall. destruct Hw. apply Hall. left.
      * intros _ Hf. by rewrite ensure_fold_changed in Hf.
Qed.

Lemma wanted_nonblank (h : string) : h ∈ WANTED_HEADERS_RU -> h <> "".
Proof.
  unfold WANTED_HEADERS_RU. rewrite !elem_of_cons, elem_of_nil.
  intros [->|[->|[->|[->|[->|[->|[->|[->|[->|[]]]]]]]]]]; done.
Qed.

Lemma update_row_1 (s : sheet) (vals : row) :
  update_row s 1 vals =
  match s with
  | [] => [vals]
  | old :: rest => overwrite_prefix vals old :: rest
  end.
Proof. by destruct s. Qed.

Lemma row_values_1 (s : sheet) :
  row_values s 1 = drop_trailing_blanks (default [] (head s)).
Proof. unfold row_values. by destruct s. Qed.

Lemma row_values_update_row_1 (s : sheet) (vals : row) :
  drop_trailing_blanks vals = vals ->
  (length (row_values s 1) <= length vals)%nat ->
  row_values (update_row s 1 vals) 1 = vals.
Proof.
  intros Hv Hlen. rewrite update_row_1. rewrite row_values_1 in *.
  destruct s as [|old rest]; simpl in *.
  - done.
  - by apply dtb_overwrite_prefix.
Qed.

Lemma update_row_1_tail (s : sheet) (vals : row) (j : nat) :
  update_row s 1 vals !! S j = s !! S j.
Proof. rewrite update_row_1. by destruct s. Qed.

Lemma update_row_1_head (s : sheet) (vals : row) (c : string) :
  c ∈ default [] (head (update_row s 1 vals)) ->
  c ∈ vals \/ c ∈ default [] (head s).
Proof.
  rewrite update_row_1. destruct s as [|old rest]; simpl; [auto|].
  unfold overwrite_prefix. rewrite elem_of_app. intros [?|Hc]; [auto|].
  right. by eapply subseteq_drop.
Qed.

Lemma ensure_headers_unfold (s : sheet) :
  _ensure_headers_ru s =
  match row_values s 1 with
  | [] => update_row s 1 WANTED_HEADERS_RU
  | h0 :: hs0 =>
      if (foldl ensure_step (h0 :: hs0, false) WANTED_HEADERS_RU).2
      then update_row s 1
             (foldl ensure_step (h0 :: hs0, false) WANTED_HEADERS_RU).1
      else s
  end.
Proof.
  unfold _ensure_headers_ru. destruct (row_values s 1) as [|h0 hs0]; [done|].
  by destruct (foldl ensure_step (h0 :: hs0, false) WANTED_HEADERS_RU).
Qed.

(** What the header completion leaves: every wanted header is present,
    nothing but wanted headers is added, and the data rows are
    untouched. *)
Lemma ensure_headers_spec (s : sheet) :
  let s0 := _ensure_headers_ru s in
  (forall h, h ∈ WANTED_HEADERS_RU -> h ∈ row_values s0 1) /\
  (forall c, c ∈ default [] (head s0) ->
             c ∈ default [] (head s) \/ c ∈ WANTED_HEADERS_RU) /\
  (forall j, s0 !! S j = s !! S j) /\
  s0 <> [].
Proof.
  cbn zeta. rewrite ensure_headers_unfold.
  destruct (row_values s 1) as [|h0 hs0] eqn:Hhdr.
  - split; [|split; [|split]].
    + rewrite row_values_update_row_1; [done|done|]. rewrite Hhdr. simpl. lia.
    + intros c Hc. apply update_row_1_head in Hc. tauto.
    + apply update_row_1_tail.
    + rewrite update_row_1. by destruct s.
  - pose proof (ensure_fold_spec WANTED_HEADERS_RU (h0 :: hs0) false) as Hf.
    cbn zeta in Hf.
    set (res := foldl ensure_step (h0 :: hs0, false) WANTED_HEADERS_RU).
    change (foldl ensure_step (h0 :: hs0, false) WANTED_HEADERS_RU)
      with res in Hf.
    destruct Hf as (H1 & H2 & H3 & H4 & H5 & H6 & H7).
    assert (drop_trailing_blanks res.1 = res.1) as Hdtb.
    { apply H4; [|apply wanted_nonblank].
      rewrite <- Hhdr, row_values_1. apply dtb_idem. }
    destruct (res.2) eqn:Hch.
    + split; [|split; [|split]].
      * rewrite row_values_update_row_1; [done|done|]. by rewrite Hhdr.
      * intros c Hc. apply update_row_1_head in Hc as [Hc|Hc]; [|auto].
        destruct (H3 c Hc) as [Hc'|Hc']; [|auto]. left.
        rewrite <- Hhdr, row_values_1 in Hc'. by apply dtb_subseteq.
      * apply update_row_1_tail.
      * rewrite update_row_1. by destruct s.
    + rewrite (H7 eq_refl eq_refl) in H1.
      split; [|split; [|split]].
      * by rewrite Hhdr.
      * auto.
      * done.
      * intros ->. done.
Qed.

Lemma ensure_headers_fixed (s : sheet) :
  (forall h, h ∈ WANTED_HEADERS_RU -> h ∈ row_values s 1) ->
  _ensure_headers_ru s = s.
Proof.
  intros Hall. rewrite ensure_headers_unfold.
  destruct (row_values s 1) as [|h0 hs0] eqn:Hhdr.
  - exfalso. specialize (Hall "user_id").
    assert ("user_id" ∈ WANTED_HEADERS_RU) as Hin by left.
    apply Hall in Hin. by apply elem_of_nil in Hin.
  - destruct (ensure_fold_spec WANTED_HEADERS_RU (h0 :: hs0) false)
      as (_ & _ & _ & _ & _ & H6 & _).
    cbn zeta in H6. specialize (H6 Hall).
    set (res := foldl ensure_step (h0 :: hs0, false) WANTED_HEADERS_RU).
    change (foldl ensure_step (h0 :: hs0, false) WANTED_HEADERS_RU)
      with res in H6.
    by rewrite H6.
Qed.

(** ** The exact-text search *)

Lemma find_in_row_row (q : string) (rn cn : nat) (r : list string)
    (c : cell_ref) :
  c ∈ find_in_row q rn cn r -> c.1 = rn.
Proof.
  revert cn. induction r as [|x r IH]; intros cn; simpl.
  - intros H. by apply elem_of_nil in H.
  - rewrite elem_of_app. intros [Hc|Hc]; [|by eapply IH].
    case_bool_decide; [|by apply elem_of_nil in Hc].
    by apply list_elem_of_singleton in Hc as ->.
Qed.

Lemma find_in_row_nil (q : string) (rn cn : nat) (r : list string) :
  find_in_row q rn cn r = [] <-> q ∉ r.
Proof.
  revert cn. induction r as [|x r IH]; intros cn; simpl.
  - split; [intros _; apply not_elem_of_nil|done].
  - rewrite elem_of_cons. case_bool_decide as Hx; simpl.
    + split; [done|]. intros []. by left.
    + rewrite IH. split; [|tauto]. intros Hn [->|?]; [done|tauto].
Qed.

Lemma findall_from_nil (rn : nat) (s : list (list string)) (q : string) :
  findall_from rn s q = [] <-> forall r, r ∈ s -> q ∉ r.
Proof.
  revert rn. induction s as [|r s IH]; intros rn; simpl.
  - split; [|done]. intros _ r Hr. by apply elem_of_nil in Hr.
  - split.
    + intros [H1 H2]%app_eq_nil r' [->|Hr']%elem_of_cons.
      * by apply find_in_row_nil in H1.
      * by apply (IH (S rn)).
    + intros Hall.
      assert (find_in_row q rn 1 r = []) as ->.
      { apply find_in_row_nil, Hall. left. }
      apply IH. intros r' Hr'. apply Hall. by right.
Qed.

(** The first match sits in the first row that holds the text. *)
Lemma findall_from_first (rn : nat) (s : list (list string)) (q : string)
    (c : cell_ref) (rest : list cell_ref) :
  findall_from rn s q = c :: rest ->
  (rn <= c.1)%nat /\
  exists r, s !! (c.1 - rn)%nat = Some r /\ q ∈ r /\
    forall j r', (j < c.1 - rn)%nat -> s !! j = Some r' -> q ∉ r'.
Proof.
  revert rn. induction s as [|r s IH]; intros rn; simpl; [done|].
  destruct (find_in_row q rn 1 r) as [|c0 l0] eqn:E; simpl.
  - intros Hf. destruct (IH _ Hf) as (Hle & r1 & Hr1 & Hq & Hbefore).
    apply find_in_row_nil in E.
    split; [lia|]. exists r1. split; [|split; [done|]].
    + by replace (c.1 - rn)%nat with (S (c.1 - S rn)) by lia.
    + intros j r' Hj Hr'. destruct j as [|j]; simpl in Hr'.
      * by injection Hr' as <-.
      * apply (Hbefore j); [lia|done].
  - intros [= <- _].
    assert (c0.1 = rn) as ->.
    { eapply find_in_row_row. rewrite E. left. }
    split; [lia|]. exists r. replace (rn - rn)%nat with 0%nat by lia.
    split; [done|]. split; [|intros; lia].
    destruct (decide (q ∈ r)) as [|Hn]; [done|].
    apply (find_in_row_nil q rn 1) in Hn. by rewrite Hn in E.
Qed.

Lemma findall_from_first_row (rn k : nat) (s : list (list string))
    (q : string) (r : list string) :
  s !! k = Some r -> q ∈ r ->
  (forall j r', (j < k)%nat -> s !! j = Some r' -> q ∉ r') ->
  exists c rest, findall_from rn s q = c :: rest /\ c.1 = (rn + k)%nat.
Proof.
  revert rn k. induction s as [|r0 s IH]; intros rn k Hk Hq Hbefore; [done|].
  simpl. destruct k as [|k]; simpl in Hk.
  - injection Hk as ->.
    destruct (find_in_row q rn 1 r) as [|c0 l0] eqn:E.
    { apply find_in_row_nil in E. done. }
    exists c0, (l0 ++ findall_from (S rn) s q). split; [done|].
    rewrite Nat.add_0_r. eapply find_in_row_row. rewrite E. left.
  - assert (find_in_row q rn 1 r0 = []) as ->.
    { apply find_in_row_nil. apply (Hbefore 0%nat); [lia|done]. }
    destruct (IH (S rn) k Hk Hq) as (c & rest & Hf & Hc).
    { intros j r' Hj Hr'. apply (Hbefore (S j)); [lia|done]. }
    exists c, rest. split; [done|]. lia.
Qed.

Lemma rows_matching_elem (s : list (list string)) (q : string) (i : nat) :
  i ∈ rows_matching s q <->
  (1 <= i)%nat /\ exists r, s !! (i - 1)%nat = Some r /\ q ∈ r.
Proof.
  unfold rows_matching. rewrite list_elem_of_fmap. split.
  - intros ([i' r] & -> & [Hq [? ?]%enumerate_elem]%list_elem_of_filter).
    eauto.
  - intros (Hle & r & Hr & Hq). exists (i, r). split; [done|].
    apply list_elem_of_filter. split; [done|]. by apply enumerate_elem.
Qed.

Lemma rows_matching_NoDup (s : list (list string)) (q : string) :
  NoDup (rows_matching s q).
Proof.
  unfold rows_matching. eapply sublist_NoDup; [apply (enumerate_NoDup_fst 1 s)|].
  apply fmap_sublist, sublist_filter.
Qed.

(** ** Decimal numerals *)

Lemma pretty_N_char_digit (x : N) : is_Some (digit_of (pretty_N_char x)).
Proof. unfold pretty_N_char. repeat case_match; by eexists. Qed.

Lemma pretty_N_go_head (x : N) (s : string) :
  (s = "" -> (0 < x)%N) ->
  (forall c r, s = String c r -> is_Some (digit_of c)) ->
  exists c r, pretty_N_go x s = String c r /\ is_Some (digit_of c).
Proof.
  revert s. induction (N.lt_wf_0 x) as [x _ IH]; intros s Hs Hd.
  assert (x = 0 \/ 0 < x)%N as [->|Hx] by lia.
  - rewrite pretty_N_go_0. destruct s as [|c r]; [specialize (Hs eq_refl); lia|].
    exists c, r. split; [done|]. by eapply Hd.
  - rewrite pretty_N_go_step by done. apply IH.
    + by apply N.div_lt.
    + done.
    + intros c r [= <- _]. apply pretty_N_char_digit.
Qed.

Lemma pretty_Z_head (z : Z) :
  exists c r, pretty z = String c r /\ (is_Some (digit_of c) \/ c = "-"%char).
Proof.
  destruct z as [|p|p].
  - exists "0"%char, "". split; [done|]. left. by eexists.
  - change (pretty (Z.pos p)) with (pretty (N.pos p)).
    unfold pretty, pretty_N. rewrite decide_False by done.
    destruct (pretty_N_go_head (N.pos p) "") as (c & r & -> & Hc);
      [lia|done|].
    exists c, r. auto.
  - exists "-"%char, (pretty p). split; [done|]. by right.
Qed.

Lemma pretty_not_wanted (z : Z) : pretty z ∉ WANTED_HEADERS_RU.
Proof.
  destruct (pretty_Z_head z) as (c & r & -> & Hc).
  unfold WANTED_HEADERS_RU. rewrite !elem_of_cons, elem_of_nil.
  intros [H|[H|[H|[H|[H|[H|[H|[H|[H|[]]]]]]]]]]; injection H as -> _;
    destruct Hc as [[d Hd]|Hc]; by vm_compute in *.
Qed.

(** ** The upsert *)

Lemma approve_row_dict_uid (uw : gmap Z user_info) (today end_date : date)
    (u : Z) :
  approve_row_dict uw today end_date u !! "user_id" = Some (pretty u).
Proof. reflexivity. Qed.

Lemma approve_row_dict_end (uw : gmap Z user_info) (today end_date : date)
    (u : Z) :
  approve_row_dict uw today end_date u !! "дата_окончания"
  = Some (isoformat end_date).
Proof. reflexivity. Qed.

Lemma index_of_elem (a : string) (headers : list string) :
  a ∈ headers ->
  exists i, index_of a headers = Some i /\ headers !! i = Some a.
Proof.
  intros Hin. unfold index_of.
  destruct (list_find (fun h => h = a) headers) as [[i h]|] eqn:E.
  - apply list_find_Some in E as (Hi & -> & _). by exists i.
  - apply list_find_None in E. rewrite Forall_forall in E.
    by destruct (E a Hin).
Qed.

Lemma write_row_lookup (s : list (list string)) (rd : gmap string string)
    (i : nat) (h : string) :
  row_values s 1 !! i = Some h ->
  _write_row_by_headers s rd !! i = Some (default "" (rd !! h)).
Proof.
  intros Hi. unfold _write_row_by_headers. by rewrite list_lookup_fmap, Hi.
Qed.

Lemma overwrite_prefix_lookup (vals old : list string) (i : nat) (v : string) :
  vals !! i = Some v -> overwrite_prefix vals old !! i = Some v.
Proof. intros Hv. unfold overwrite_prefix. by apply lookup_app_l_Some. Qed.

Lemma overwrite_prefix_elem (vals old : list string) (v : string) :
  v ∈ vals -> v ∈ overwrite_prefix vals old.
Proof. intros Hv. unfold overwrite_prefix. apply elem_of_app. by left. Qed.

Lemma overwrite_prefix_idem (vals old : list string) :
  overwrite_prefix vals (overwrite_prefix vals old) = overwrite_prefix vals old.
Proof.
  unfold overwrite_prefix. f_equal. by rewrite drop_app_length.
Qed.

Lemma overwrite_prefix_same (vals : list string) :
  overwrite_prefix vals vals = vals.
Proof. unfold overwrite_prefix. by rewrite drop_all, app_nil_r. Qed.

Lemma update_row_in_range (s : list (list string)) (r : nat)
    (vals : list string) :
  (r - 1 < length s)%nat ->
  update_row s r vals = alter (overwrite_prefix vals) (r - 1)%nat s.
Proof. intros Hr. unfold update_row. by rewrite decide_True. Qed.

Lemma first_match_row_eq (s : list (list string)) (q : string) (c : cell_ref)
    (rest : list cell_ref) :
  findall s q = c :: rest -> first_match_row s q = Some c.1.
Proof. unfold first_match_row. by intros ->. Qed.

(** The write of the upsert on a sheet whose header row does not hold the
    searched text: the written row is the first match afterwards, and
    writing again changes nothing. *)
Lemma upsert_row_spec (s0 : list (list string)) (q : string)
    (values : list string) :
  s0 <> [] -> q ∈ values -> q ∉ default [] (head s0) ->
  let s1 := upsert_row s0 q values in
  head s1 = head s0 /\
  upsert_row s1 q values = s1 /\
  (findall s0 q <> [] -> length s1 = length s0) /\
  (findall s0 q = [] -> s1 = s0 ++ [values]) /\
  exists r row1,
    first_match_row s1 q = Some r /\ (2 <= r)%nat /\
    s1 !! (r - 1)%nat = Some row1 /\
    (forall i v, values !! i = Some v -> row1 !! i = Some v) /\
    (forall r0, first_match_row s0 q = Some r0 -> r = r0) /\
    (forall j, j <> (r - 1)%nat -> s1 !! j = s0 !! j) /\
    ((length (rows_matching s0 q) <= 1)%nat -> rows_matching s1 q = [r]).
Proof.
  intros Hne Hq Hhdr. cbn zeta. unfold upsert_row at 1 3 4 5 6 7 8 9 10.
  destruct (findall s0 q) as [|[r cc] rest] eqn:Hfind.
  - (* nothing matches: the row is appended *)
    unfold append_row.
    assert (forall r', r' ∈ s0 -> q ∉ r') as Hnone.
    { by apply (findall_from_nil 1). }
    assert (1 <= length s0)%nat as Hlen.
    { destruct s0; [done|simpl; lia]. }
    destruct (findall_from_first_row 1 (length s0) (s0 ++ [values]) q values)
      as ([r1 c1] & rest1 & Hfind1 & Hr1).
    { by apply list_lookup_middle. }
    { done. }
    { intros j r' Hj Hr'. rewrite lookup_app_l in Hr' by done.
      apply Hnone. by eapply list_elem_of_lookup_2. }
    cbn [fst] in Hr1. subst r1.
    split; [by destruct s0|]. split; [|split; [done|split; [done|]]].
    + unfold upsert_row. fold (findall (s0 ++ [values]) q) in Hfind1.
      rewrite Hfind1. rewrite update_row_in_range.
      2: { rewrite length_app. simpl. lia. }
      replace (1 + length s0 - 1)%nat with (length s0 + 0)%nat by lia.
      rewrite alter_app_r. simpl. by rewrite overwrite_prefix_same.
    + exists (1 + length s0)%nat, values.
      split; [by apply (first_match_row_eq _ _ _ _ Hfind1)|].
      split; [lia|]. split.
      { apply list_lookup_middle. lia. }
      split; [done|].
      split; [unfold first_match_row; by rewrite Hfind|].
      split.
      { intros j Hj. destruct (decide (j < length s0)%nat) as [Hlt|Hge].
        - by rewrite lookup_app_l.
        - transitivity (@None (list string)).
          + apply lookup_ge_None_2. rewrite length_app. simpl. lia.
          + symmetry. apply lookup_ge_None_2. lia. }
      intros _.
      apply singleton_of_length_le_1.
      * apply rows_matching_elem. split; [lia|]. exists values.
        split; [|done]. apply list_lookup_middle. lia.
      * apply NoDup_all_equal_length; [apply rows_matching_NoDup|].
        assert (forall i, i ∈ rows_matching (s0 ++ [values]) q ->
                          i = (1 + length s0)%nat) as Hall.
        { intros i (Hi & row & Hrow & Hin)%rows_matching_elem.
          destruct (decide (i - 1 < length s0)%nat) as [Hlt|Hge].
          - rewrite lookup_app_l in Hrow by done.
            destruct (Hnone row); [|done]. by eapply list_elem_of_lookup_2.
          - apply lookup_lt_Some in Hrow. rewrite length_app in Hrow.
            simpl in Hrow. lia. }
        intros x y Hx Hy. by rewrite (Hall x Hx), (Hall y Hy).
  - (* the first match is overwritten in place *)
    destruct (findall_from_first 1 s0 q (r, cc) rest Hfind)
      as (Hle & old & Hold & Hqold & Hbefore).
    cbn [fst] in *.
    assert (2 <= r)%nat as Hr2.
    { destruct (decide (r = 1%nat)) as [->|]; [|lia].
      destruct Hhdr. rewrite head_lookup. simpl in Hold. by rewrite Hold. }
    assert (r - 1 < length s0)%nat as Hrlen by (by eapply lookup_lt_Some).
    rewrite update_row_in_range by done.
    set (s1 := alter (overwrite_prefix values) (r - 1)%nat s0).
    assert (s1 !! (r - 1)%nat = Some (overwrite_prefix values old)) as Hrow1.
    { unfold s1. by rewrite list_lookup_alter_eq, Hold. }
    assert (forall j, j <> (r - 1)%nat -> s1 !! j = s0 !! j) as Hother.
    { intros j Hj. unfold s1. by apply list_lookup_alter_ne. }
    destruct (findall_from_first_row 1 (r - 1) s1 q (overwrite_prefix values old))
      as ([r1 c1] & rest1 & Hfind1 & Hr1).
    { done. }
    { by apply overwrite_prefix_elem. }
    { intros j r' Hj Hr'. rewrite Hother in Hr' by lia.
      by apply (Hbefore j). }
    cbn [fst] in Hr1. assert (r1 = r) as -> by lia.
    split; [|split; [|split; [|split]]].
    + rewrite !head_lookup. apply Hother. lia.
    + unfold upsert_row. fold (findall s1 q) in Hfind1. rewrite Hfind1.
      rewrite update_row_in_range by (unfold s1; by rewrite length_alter).
      unfold s1. rewrite list_alter_alter_eq.
      apply list_alter_ext; [|done]. intros x _. simpl.
      apply overwrite_prefix_idem.
    + intros _. unfold s1. apply length_alter.
    + done.
    + exists r, (overwrite_prefix values old).
      split; [by apply (first_match_row_eq _ _ _ _ Hfind1)|].
      split; [done|]. split; [done|].
      split; [intros i v; apply overwrite_prefix_lookup|].
      split.
      { intros r0 Hr0. unfold first_match_row in Hr0. rewrite Hfind in Hr0.
        simpl in Hr0. congruence. }
      split; [exact Hother|].
      intros Hone.
      assert (r ∈ rows_matching s0 q) as Hin0.
      { apply rows_matching_elem. split; [lia|]. by exists old. }
      pose proof (singleton_of_length_le_1 _ _ Hin0 Hone) as Hs0.
      assert (forall i, i ∈ rows_matching s1 q -> i = r) as Hall.
      { intros i (Hi & row & Hrow & Hin)%rows_matching_elem.
        destruct (decide (i = r)) as [|Hir]; [done|].
        rewrite Hother in Hrow by lia.
        assert (i ∈ rows_matching s0 q) as Hi0.
        { apply rows_matching_elem. split; [done|]. by exists row. }
        rewrite Hs0 in Hi0. by apply list_elem_of_singleton in Hi0. }
      apply singleton_of_length_le_1.
      * apply rows_matching_elem. split; [lia|].
        exists (overwrite_prefix values old). split; [done|].
        by apply overwrite_prefix_elem.
      * apply NoDup_all_equal_length; [apply rows_matching_NoDup|].
        intros x y Hx Hy. by rewrite (Hall x Hx), (Hall y Hy).
Qed.

Lemma ensure_headers_length (s : list (list string)) :
  s <> [] -> length (_ensure_headers_ru s) = length s.
Proof.
  intros Hne. rewrite ensure_headers_unfold.
  destruct (row_values s 1) as [|h0 hs0].
  - rewrite update_row_1. by destruct s.
  - destruct ((foldl ensure_step (h0 :: hs0, false) WANTED_HEADERS_RU).2);
      [|done].
    rewrite update_row_1. by destruct s.
Qed.

Lemma ensure_headers_no_match (s : list (list string)) (u : Z) :
  pretty u ∉ default [] (head s) ->
  pretty u ∉ default [] (head (_ensure_headers_ru s)).
Proof.
  intros Hs Hin.
  destruct (ensure_headers_spec s) as (_ & Hcells & _ & _).
  destruct (Hcells _ Hin) as [?|Hw]; [done|].
  by apply pretty_not_wanted in Hw.
Qed.

(** The header completion neither adds nor removes a row that holds the
    identity's text. *)
Lemma ensure_headers_rows_matching (s : list (list string)) (u : Z) (i : nat) :
  pretty u ∉ default [] (head s) ->
  i ∈ rows_matching (_ensure_headers_ru s) (pretty u) <->
  i ∈ rows_matching s (pretty u).
Proof.
  intros Hs. pose proof (ensure_headers_no_match s u Hs) as Hs0.
  destruct (ensure_headers_spec s) as (_ & _ & Htail & _).
  rewrite !rows_matching_elem.
  destruct (decide (i = 1%nat)) as [->|Hi].
  - simpl. rewrite <- !head_lookup. split.
    + intros (_ & r & Hr & Hq). rewrite Hr in Hs0. done.
    + intros (_ & r & Hr & Hq). rewrite Hr in Hs. done.
  - split; intros (Hle & r & Hr & Hq); (split; [done|]); exists r;
      (split; [|done]);
      replace (i - 1)%nat with (S (i - 2)) in * by lia;
      by rewrite ?Htail in *.
Qed.

Lemma ensure_headers_first_match (s : list (list string)) (u : Z) (r0 : nat) :
  pretty u ∉ default [] (head s) ->
  first_match_row s (pretty u) = Some r0 ->
  first_match_row (_ensure_headers_ru s) (pretty u) = Some r0.
Proof.
  intros Hs Hfirst. pose proof (ensure_headers_no_match s u Hs) as Hs0.
  destruct (ensure_headers_spec s) as (_ & _ & Htail & _).
  unfold first_match_row in Hfirst.
  destruct (findall s (pretty u)) as [|c rest] eqn:Hf; [done|].
  injection Hfirst as <-.
  destruct (findall_from_first 1 s _ c rest Hf)
    as (Hle & old & Hold & Hq & Hbefore).
  assert (2 <= c.1)%nat as Hc2.
  { destruct (decide (c.1 = 1%nat)) as [Heq|]; [|lia].
    rewrite Heq in Hold. simpl in Hold. rewrite <- head_lookup in Hold.
    rewrite Hold in Hs. done. }
  destruct (findall_from_first_row 1 (c.1 - 1) (_ensure_headers_ru s)
              (pretty u) old) as (c' & rest' & Hf' & Hc').
  - replace (c.1 - 1)%nat with (S (c.1 - 2)) in * by lia. by rewrite Htail.
  - done.
  - intros j r' Hj Hr'. destruct j as [|j].
    + rewrite <- head_lookup in Hr'. rewrite Hr' in Hs0. done.
    + rewrite Htail in Hr'. by apply (Hbefore (S j)).
  - rewrite (first_match_row_eq _ _ _ _ Hf'). f_equal. lia.
Qed.

(** C3, as stated, fails when the ledger already holds duplicates: the
    upsert rewrites the first matching row only, so two rows of the
    identity are still there after both calls, the second of them
    untouched.  It also fails when the identity's text is a cell of the
    header row: the search then hits the header row, the write lands there,
    and a second call changes the sheet again. *)
Lemma upsert_keeps_existing_duplicates :
  let s := [WANTED_HEADERS_RU;
            ["5"; "@a"; "2024-12-01"; "2025-01-20"];
            ["5"; "@a"; "2024-11-01"; "2024-12-20"]] in
  let h := [["user_id"; "5"]] in
  (exists s1 s2,
      _approve_user 20 ∅ (mkdate 2025 1 15) 5 s = Some s1 /\
      _approve_user 20 ∅ (mkdate 2025 1 15) 5 s1 = Some s2 /\
      rows_matching s2 (pretty (5 : Z)) = [2%nat; 3%nat] /\
      omap (row_uid 0) (tail s2) = [5; 5] /\
      s2 !! 2%nat = s !! 2%nat) /\
  (exists h1 h2,
      _approve_user 20 ∅ (mkdate 2025 1 15) 5 h = Some h1 /\
      _approve_user 20 ∅ (mkdate 2025 1 15) 5 h1 = Some h2 /\
      first_match_row h (pretty (5 : Z)) = Some 1%nat /\
      h2 <> h1).
Proof.
  cbn zeta. split.
  - eexists _, _.
    split; [vm_compute; reflexivity|].
    split; [vm_compute; reflexivity|].
    split; [vm_compute; reflexivity|].
    split; vm_compute; reflexivity.
  - eexists _, _.
    split; [vm_compute; reflexivity|].
    split; [vm_compute; reflexivity|].
    split; [vm_compute; reflexivity|].
    apply (bool_decide_unpack _). vm_compute. exact I.
Qed.

(** C3 (amended): when no header cell holds the identity's text, a second
    upsert for the same identity on the same day, under the same end-day
    setting and the same [users_waiting], changes nothing: it overwrites in
    place the row the first call wrote, with the same values and so the
    same period end, and appends nothing; when a matching row existed
    before the first call, that call overwrote the first matching row in
    place and the ledger kept its length.  Every data row other than the
    written one is as it was before the first call, so rows of the identity
    beyond the first match stay; the identity has exactly one row after
    both calls provided at most one row held its text before the first
    call. *)
Theorem upsert_twice_same_day (end_day : Z) (uw : gmap Z user_info)
    (today : date) (u : Z) (s s1 : list (list string)) :
  _approve_user end_day uw today u s = Some s1 ->
  pretty u ∉ default [] (head s) ->
  _approve_user end_day uw today u s1 = Some s1 /\
  exists r i end_date,
    _calc_end_date end_day today = Some end_date /\
    first_match_row s1 (pretty u) = Some r /\ (2 <= r)%nat /\
    find_col s1 "дата_окончания" = Some i /\
    cell_at s1 r i = Some (isoformat end_date) /\
    (forall r0, first_match_row s (pretty u) = Some r0 ->
                r = r0 /\ length s1 = length s) /\
    (forall j, (2 <= j)%nat -> j <> r ->
               s1 !! (j - 1)%nat = s !! (j - 1)%nat) /\
    ((length (rows_matching s (pretty u)) <= 1)%nat ->
     rows_matching s1 (pretty u) = [r]).
Proof.
  intros Happ Hhdr. unfold _approve_user in Happ.
  destruct (_calc_end_date end_day today) as [end_date|] eqn:Hcalc; [|done].
  cbn [mbind option_bind] in Happ. injection Happ as Hs1.
  set (s0 := _ensure_headers_ru s) in *.
  set (rd := approve_row_dict uw today end_date u) in *.
  set (values := _write_row_by_headers s0 rd) in *.
  destruct (ensure_headers_spec s) as (Hwanted & _ & Htail & Hne).
  fold s0 in Hwanted, Htail, Hne.
  pose proof (ensure_headers_no_match s u Hhdr) as Hhdr0. fold s0 in Hhdr0.
  (* the identity's text and the period end are among the values *)
  destruct (index_of_elem "user_id" (row_values s0 1)) as (iu & _ & Hiu).
  { apply Hwanted. left. }
  assert (pretty u ∈ values) as Hq.
  { apply (list_elem_of_lookup_2 _ iu). unfold values.
    rewrite (write_row_lookup _ _ _ _ Hiu). unfold rd.
    by rewrite approve_row_dict_uid. }
  destruct (index_of_elem "дата_окончания" (row_values s0 1))
    as (ie & Hie & Hie').
  { apply Hwanted. do 3 right. left. }
  assert (values !! ie = Some (isoformat end_date)) as Hend.
  { unfold values. rewrite (write_row_lookup _ _ _ _ Hie'). unfold rd.
    by rewrite approve_row_dict_end. }
  destruct (upsert_row_spec s0 (pretty u) values Hne Hq Hhdr0)
    as (Hhead & Hfix & Hlen & _ & r & row1 & Hfirst & Hr2 & Hrow1 & Hvals
        & Hsame & Hframe & Hone).
  rewrite Hs1 in Hhead, Hfix, Hlen, Hfirst, Hrow1, Hframe, Hone.
  assert (row_values s1 1 = row_values s0 1) as Hrv.
  { by rewrite !row_values_1, Hhead. }
  split.
  - unfold _approve_user. rewrite Hcalc. cbn [mbind option_bind].
    rewrite ensure_headers_fixed by (by rewrite Hrv).
    assert (_write_row_by_headers s1
              (approve_row_dict uw today end_date u) = values) as ->.
    { unfold values, _write_row_by_headers. by rewrite Hrv. }
    by rewrite Hfix.
  - exists r, ie, end_date. split; [done|]. split; [done|]. split; [done|].
    split.
    { unfold find_col. rewrite Hrv.
      change (aliases_of "дата_окончания")
        with ["дата_окончания"; "paid_until"; "end_date"; "дата окончания"].
      cbn [first_alias_index]. by rewrite Hie. }
    split.
    { unfold cell_at. rewrite Hrow1. cbn [mbind option_bind]. by apply Hvals. }
    split.
    + intros r0 Hr0.
      apply (ensure_headers_first_match s u r0 Hhdr) in Hr0 as Hr0'.
      fold s0 in Hr0'. split; [by apply Hsame|].
      rewrite Hlen.
      * apply ensure_headers_length. intros ->. done.
      * unfold first_match_row in Hr0'. by destruct (findall s0 (pretty u)).
    + split.
      { intros j Hj Hjr. rewrite Hframe by lia.
        replace (j - 1)%nat with (S (j - 2)) by lia. apply Htail. }
      intros Hle. apply Hone.
      apply NoDup_all_equal_length; [apply rows_matching_NoDup|].
      intros x y Hx Hy.
      apply (ensure_headers_rows_matching s u x Hhdr) in Hx.
      apply (ensure_headers_rows_matching s u y Hhdr) in Hy.
      destruct (rows_matching s (pretty u)) as [|a [|b l]]; simpl in Hle.
      * by apply elem_of_nil in Hx.
      * apply list_elem_of_singleton in Hx, Hy. congruence.
      * lia.
Qed.

Lemma upsert_twice_same_day_witness :
  let s := [["user_id"; "дата_окончания"]; ["5"; "2024-12-20"]] in
  exists s1,
    _approve_user 20 ∅ (mkdate 2025 1 15) 5 s = Some s1 /\
    _approve_user 20 ∅ (mkdate 2025 1 15) 5 s1 = Some s1.
Proof.
  cbn zeta. eexists. split; [vm_compute; reflexivity|].
  refine (proj1 (upsert_twice_same_day 20 ∅ (mkdate 2025 1 15) 5
                   [["user_id"; "дата_окончания"]; ["5"; "2024-12-20"]] _
                   _ _)).
  - vm_compute. reflexivity.
  - apply (bool_decide_unpack _). vm_compute. exact I.
Defined.
